(** * Verification of the text analysis engine (src/document_analyzer.py)

    A shallow embedding of [DocumentAnalyzer] and of the Python built-ins it
    calls, followed by the properties of the natural-language specification.

    Modelling conventions.
    - A Python [str] is a list of Unicode code points ([pystr]).
    - Whitespace ([str.strip], [str.split()], the regex class [\s]) is the
      fixed table of [Py_UNICODE_ISSPACE].
    - The large Unicode tables ([str.lower], [str.isupper], the regex classes
      [\w] and [\d]) are the fields of the class [UnicodeDb]; [ascii_db] is
      the instance that agrees with Python on ASCII text.
    - Python floats are modelled by exact rationals; [round] is rounding to
      the nearest decimal, ties to even.
    - An exception is the [Raise] outcome of the [result] monad. *)

From Stdlib Require Import ZArith NArith QArith List Ascii String Lia Sorted.
From stdpp Require Import base list gmap sets.

Local Open Scope N_scope.

(** ** Strings *)

Abbreviation char := N (only parsing).
Abbreviation pystr := (list N) (only parsing).

(** A literal of the source, as code points (ASCII literals only). *)
Definition py (s : string) : pystr :=
  List.map N_of_ascii (list_ascii_of_string s).

Definition LF : char := 10.
Definition SPACE : char := 32.

(** [Py_UNICODE_ISSPACE]: the characters removed by [strip()], separating the
    fields of [split()] and matched by [\s]. *)
Definition isspace (c : char) : bool :=
  ((9 <=? c) && (c <=? 13)) || ((28 <=? c) && (c <=? 32))
  || (c =? 133) || (c =? 160) || (c =? 5760)
  || ((8192 <=? c) && (c <=? 8202))
  || (c =? 8232) || (c =? 8233) || (c =? 8239) || (c =? 8287) || (c =? 12288).

Fixpoint str_lstrip (s : pystr) : pystr :=
  match s with
  | [] => []
  | c :: s' => if isspace c then str_lstrip s' else s
  end.

Definition str_rstrip (s : pystr) : pystr := rev (str_lstrip (rev s)).

(** [s.strip()] *)
Definition str_strip (s : pystr) : pystr := str_rstrip (str_lstrip s).

(** [s.startswith(p)] *)
Fixpoint startswith (p s : pystr) : bool :=
  match p, s with
  | [], _ => true
  | _ :: _, [] => false
  | a :: p', b :: s' => (a =? b) && startswith p' s'
  end.

(** Puts a character in front of the first field of a list of fields. *)
Definition cons_head (c : char) (fields : list pystr) : list pystr :=
  match fields with
  | [] => [[c]]
  | f :: fs => (c :: f) :: fs
  end.

(** The fields of [s] between the characters satisfying [d]; every such
    character ends a field, so adjacent ones give empty fields. *)
Fixpoint fields (d : char -> bool) (s : pystr) : list pystr :=
  match s with
  | [] => [[]]
  | c :: s' => if d c then [] :: fields d s' else cons_head c (fields d s')
  end.

Definition nonempty (s : pystr) : bool :=
  match s with [] => false | _ :: _ => true end.

(** [s.split()]: split on runs of whitespace, empty strings discarded. *)
Definition str_split (s : pystr) : list pystr :=
  List.filter nonempty (fields isspace s).

(** [s.split(sep)] for a non-empty [sep]: occurrences are found from left to
    right and do not overlap; [skip] counts the characters of the current
    occurrence that are still to be passed. *)
Fixpoint split_sep_aux (sep : pystr) (skip : nat) (s : pystr) : list pystr :=
  match s with
  | [] => [[]]
  | c :: s' =>
      match skip with
      | S k => split_sep_aux sep k s'
      | O =>
          if startswith sep s
          then [] :: split_sep_aux sep (length sep - 1) s'
          else cons_head c (split_sep_aux sep 0 s')
      end
  end.

Definition str_split_sep (sep s : pystr) : list pystr := split_sep_aux sep 0 s.

(** [s.replace(old, new)] for a non-empty [old]. *)
Fixpoint replace_aux (old new : pystr) (skip : nat) (s : pystr) : pystr :=
  match s with
  | [] => []
  | c :: s' =>
      match skip with
      | S k => replace_aux old new k s'
      | O =>
          if startswith old s
          then new ++ replace_aux old new (length old - 1) s'
          else c :: replace_aux old new 0 s'
      end
  end.

Definition str_replace (old new s : pystr) : pystr := replace_aux old new 0 s.

(** [s.count(sub)] for a non-empty [sub]: non-overlapping occurrences. *)
Fixpoint count_aux (sub : pystr) (skip : nat) (s : pystr) : nat :=
  match s with
  | [] => 0%nat
  | _ :: s' =>
      match skip with
      | S k => count_aux sub k s'
      | O =>
          if startswith sub s
          then S (count_aux sub (length sub - 1) s')
          else count_aux sub 0 s'
      end
  end.

Definition str_count (s sub : pystr) : nat := count_aux sub 0 s.

(** [sep.join(parts)] *)
Fixpoint str_join (sep : pystr) (parts : list pystr) : pystr :=
  match parts with
  | [] => []
  | [p] => p
  | p :: ps => p ++ sep ++ str_join sep ps
  end.

(** The class [[.!?]] of the sentence pattern. *)
Definition is_sentence_end (c : char) : bool :=
  (c =? 46) || (c =? 33) || (c =? 63).

(** [re.split(r'[.!?]+', s)]: split on maximal runs of [d]; a run gives one
    cut, and a run at either end of [s] leaves an empty string there. *)
Fixpoint re_split_runs (d : char -> bool) (s : pystr) : list pystr :=
  match s with
  | [] => [[]]
  | c :: s' =>
      if d c then
        match s' with
        | c' :: _ => if d c' then re_split_runs d s' else [] :: re_split_runs d s'
        | [] => [] :: re_split_runs d s'
        end
      else cons_head c (re_split_runs d s')
  end.

(** ** Exceptions *)

Inductive exn : Type :=
  | ZeroDivisionError
  | ValueError
  | KeyError (key : pystr)
  | TypeError
  | AttributeError.

Inductive result (A : Type) : Type :=
  | Ok (a : A)
  | Raise (e : exn).
Arguments Ok {A} a.
Arguments Raise {A} e.

Definition bind {A B} (m : result A) (k : A -> result B) : result B :=
  match m with
  | Ok a => k a
  | Raise e => Raise e
  end.

Notation "'do' x <- m ; k" := (bind m (fun x => k))
  (at level 10, x name, m at level 100, k at level 200).

(** The results of a comprehension whose body may raise. *)
Fixpoint map_result {A B} (f : A -> result B) (l : list A) : result (list B) :=
  match l with
  | [] => Ok []
  | a :: l' => do b <- f a; do bs <- map_result f l'; Ok (b :: bs)
  end.

(** ** Numbers *)

(** True division [a / b] of two lengths. *)
Definition py_div (a b : nat) : result Q :=
  match b with
  | O => Raise ZeroDivisionError
  | S _ => Ok (inject_Z (Z.of_nat a) / inject_Z (Z.of_nat b))%Q
  end.

Definition round_half_even (x : Q) : Z :=
  let n := Qnum x in
  let d := Zpos (Qden x) in
  let fl := (n / d)%Z in
  let r2 := (2 * (n mod d))%Z in
  if (r2 <? d)%Z then fl
  else if (d <? r2)%Z then (fl + 1)%Z
  else if Z.even fl then fl else (fl + 1)%Z.

(** [round(x, ndigits)] *)
Definition py_round (x : Q) (ndigits : nat) : Q :=
  let scale := inject_Z (10 ^ Z.of_nat ndigits) in
  Qred (inject_Z (round_half_even (x * scale)%Q) / scale)%Q.

(** ** [_calculate_statistics] *)

Record statistics : Type := {
  characterCount : nat;
  characterCountNoSpaces : nat;
  wordCount : nat;
  lineCount : nat;
  paragraphCount : nat;
  sentenceCount : nat;
  averageWordLength : Q;
  averageSentenceLength : Q;
  readingTime : Q
}.

Definition sum_lengths (words : list pystr) : nat :=
  fold_right (fun w acc => (length w + acc)%nat) 0%nat words.

Definition calculate_statistics (text : pystr) : result statistics :=
  let clean_text := str_strip text in
  let char_count := length clean_text in
  let char_count_no_spaces :=
    length (str_replace [LF] [] (str_replace [SPACE] [] clean_text)) in
  let words := str_split clean_text in
  let word_count := length words in
  let lines := str_split_sep [LF] clean_text in
  let line_count := length lines in
  let paragraphs :=
    List.filter (fun p => nonempty (str_strip p))
                (str_split_sep [LF; LF] clean_text) in
  let paragraph_count := length paragraphs in
  let sentences := re_split_runs is_sentence_end clean_text in
  let sentence_count :=
    length (List.filter (fun s => nonempty (str_strip s)) sentences) in
  do avg_word_length <-
    (if (0 <? word_count)%nat then py_div (sum_lengths words) word_count
     else Ok 0%Q);
  do avg_sentence_length <-
    (if (0 <? sentence_count)%nat then py_div word_count sentence_count
     else Ok 0%Q);
  do reading <- py_div word_count 200;
  Ok {| characterCount := char_count;
        characterCountNoSpaces := char_count_no_spaces;
        wordCount := word_count;
        lineCount := line_count;
        paragraphCount := paragraph_count;
        sentenceCount := sentence_count;
        averageWordLength := py_round avg_word_length 2;
        averageSentenceLength := py_round avg_sentence_length 2;
        readingTime := py_round reading 1 |}.

(** ** Unicode tables *)

Class UnicodeDb : Type := {
  str_lower : pystr -> pystr;      (* [s.lower()] *)
  str_isupper : pystr -> bool;     (* [s.isupper()] *)
  re_word : char -> bool;          (* the regex class [\w] *)
  re_digit : char -> bool          (* the regex class [\d] *)
}.

Definition ascii_is_upper (c : char) : bool := (65 <=? c) && (c <=? 90).
Definition ascii_is_lower (c : char) : bool := (97 <=? c) && (c <=? 122).
Definition ascii_is_digit (c : char) : bool := (48 <=? c) && (c <=? 57).
Definition ascii_is_alpha (c : char) : bool := ascii_is_upper c || ascii_is_lower c.
Definition ascii_lower (c : char) : char := if ascii_is_upper c then c + 32 else c.

(** The tables restricted to ASCII: what Python computes on ASCII text. *)
Definition ascii_db : UnicodeDb := {|
  str_lower := List.map ascii_lower;
  str_isupper := fun s =>
    existsb ascii_is_upper s && negb (existsb ascii_is_lower s);
  re_word := fun c => ascii_is_alpha c || ascii_is_digit c || (c =? 95);
  re_digit := ascii_is_digit
|}.

(** ** Sorting as [sorted(..., reverse=True)] and [list.sort(reverse=True)]

    Both are stable: entries with equal keys keep their order. [lt x y] tells
    that the key of [x] is smaller than the key of [y]. *)

Fixpoint insert_desc {A} (lt : A -> A -> bool) (x : A) (l : list A) : list A :=
  match l with
  | [] => [x]
  | y :: l' => if lt x y then y :: insert_desc lt x l' else x :: l
  end.

Definition sort_desc {A} (lt : A -> A -> bool) (l : list A) : list A :=
  fold_right (insert_desc lt) [] l.

(** [enumerate(l)] *)
Definition enumerate {A} (l : list A) : list (nat * A) :=
  combine (seq 0 (length l)) l.

(** ** [_extract_keywords] *)

Definition stop_words : gset pystr :=
  list_to_set (List.map py
    ["the"; "be"; "to"; "of"; "and"; "a"; "in"; "that"; "have"; "i";
     "it"; "for"; "not"; "on"; "with"; "he"; "as"; "you"; "do"; "at";
     "this"; "but"; "his"; "by"; "from"; "they"; "we"; "say"; "her"; "she";
     "or"; "an"; "will"; "my"; "one"; "all"; "would"; "there"; "their";
     "what"; "so"; "up"; "out"; "if"; "about"; "who"; "get"; "which"; "go";
     "me"; "when"; "make"; "can"; "like"; "time"; "no"; "just"; "him"; "know";
     "take"; "people"; "into"; "year"; "your"; "good"; "some"; "could"; "them";
     "see"; "other"; "than"; "then"; "now"; "look"; "only"; "come"; "its"; "over";
     "think"; "also"; "back"; "after"; "use"; "two"; "how"; "our"; "work";
     "first"; "well"; "way"; "even"; "new"; "want"; "because"; "any"; "these";
     "give"; "day"; "most"; "us"; "is"; "was"; "are"; "been"; "has"; "had";
     "were"; "said"; "did"; "having"; "may"; "should"]%string).

(** [re.sub(r'[^\w\s]', ' ', s)] *)
Definition sub_punctuation `{UnicodeDb} (s : pystr) : pystr :=
  List.map (fun c => if re_word c || isspace c then c else SPACE) s.

(** The list [keywords] of the source: the tokens that are kept. *)
Definition retained_tokens `{UnicodeDb} (text : pystr) : list pystr :=
  let clean_text := sub_punctuation (str_lower text) in
  let words := str_split clean_text in
  List.filter
    (fun word => (3 <? length word)%nat && negb (bool_decide (word ∈ stop_words)))
    words.

(** [Counter(l)]: a dict, so the keys are in the order they were first seen. *)
Fixpoint counter_add (w : pystr) (c : list (pystr * nat)) : list (pystr * nat) :=
  match c with
  | [] => [(w, 1%nat)]
  | (k, n) :: c' =>
      if bool_decide (k = w) then (k, S n) :: c' else (k, n) :: counter_add w c'
  end.

Definition Counter (l : list pystr) : list (pystr * nat) :=
  fold_left (fun c w => counter_add w c) l [].

(** [c.total()]: the sum of the counts. *)
Fixpoint total (c : list (pystr * nat)) : nat :=
  match c with
  | [] => 0%nat
  | kn :: c' => (snd kn + total c')%nat
  end.

(** [c.most_common(n)], i.e. [sorted(c.items(), key=count, reverse=True)[:n]] *)
Definition most_common (n : nat) (c : list (pystr * nat)) : list (pystr * nat) :=
  take n (sort_desc (fun x y => (snd x <? snd y)%nat) c).

Record keyword_entry : Type := {
  keyword : pystr;
  frequency : nat;
  relevance : Q
}.

(** [top_n] is the number of keywords to return (20 in [analyze_document]). *)
Definition extract_keywords `{UnicodeDb} (text : pystr) (top_n : nat)
  : result (list keyword_entry) :=
  let keywords := retained_tokens text in
  let word_freq := Counter keywords in
  let top_keywords := most_common top_n word_freq in
  map_result
    (fun wc : pystr * nat =>
       do ratio <- py_div (snd wc) (length keywords);
       Ok {| keyword := fst wc;
             frequency := snd wc;
             relevance := py_round (ratio * 100)%Q 2 |})
    top_keywords.

(** ** [_generate_summary] *)

(** The list [sentences] of the source after its filter. *)
Definition retained_sentences (text : pystr) : list pystr :=
  List.map str_strip
    (List.filter (fun s => (20 <? length (str_strip s))%nat)
                 (re_split_runs is_sentence_end text)).

Definition Qlt_bool (x y : Q) : bool := negb (Qle_bool y x).

(** The loop that puts the selected sentences back in their original order. *)
Fixpoint collect_in_order (top : list pystr) (max_sentences : nat)
    (summary_sentences sentences : list pystr) : list pystr :=
  match sentences with
  | [] => summary_sentences
  | sentence :: rest =>
      if bool_decide (sentence ∈ top) then
        let summary_sentences' := summary_sentences ++ [sentence] in
        if (max_sentences <=? length summary_sentences')%nat
        then summary_sentences'
        else collect_in_order top max_sentences summary_sentences' rest
      else collect_in_order top max_sentences summary_sentences rest
  end.

(** [max_sentences] is the maximum number of sentences
    (5 in [analyze_document]). *)
Definition generate_summary (text : pystr) (max_sentences : nat) : result pystr :=
  let sentences := retained_sentences text in
  if (length sentences <=? max_sentences)%nat then
    Ok (str_join (py ". ") sentences ++ py ".")
  else
    do scored_sentences <-
      map_result
        (fun p : nat * pystr =>
           let words := str_split (snd p) in
           do pos <- py_div (fst p) (length sentences);
           Ok ((inject_Z (Z.of_nat (length words)) * (1 - pos * (1 # 2)))%Q, snd p))
        (enumerate (take (Nat.min (length sentences) 50) sentences));
    let sorted := sort_desc (fun x y => Qlt_bool (fst x) (fst y)) scored_sentences in
    let top_sentences := List.map snd (take max_sentences sorted) in
    let summary_sentences := collect_in_order top_sentences max_sentences [] sentences in
    Ok (str_join (py ". ") summary_sentences ++ py ".").

(** ** [_extract_links] *)

(** One character of the group after [://]: the alternatives [[a-zA-Z]],
    [[0-9]], [[$-_@.&+]] (where [$-_] is the range from [$] to [_]) and
    [[!*\\(\\),]]. *)
Definition is_url_char (c : char) : bool :=
  ascii_is_lower c || ascii_is_upper c
  || ascii_is_digit c
  || ((36 <=? c) && (c <=? 95)) || (c =? 64) || (c =? 46) || (c =? 38) || (c =? 43)
  || (c =? 33) || (c =? 42) || (c =? 92) || (c =? 40) || (c =? 41) || (c =? 44).

Definition is_hex_digit (c : char) : bool :=
  ascii_is_digit c || ((97 <=? c) && (c <=? 102)) || ((65 <=? c) && (c <=? 70)).

(** One iteration of the group: the number of characters taken by the first
    alternative that matches, the last one being [%[0-9a-fA-F][0-9a-fA-F]]. *)
Definition url_atom (s : pystr) : option nat :=
  match s with
  | [] => None
  | c :: rest =>
      if is_url_char c then Some 1%nat
      else
        match rest with
        | h1 :: h2 :: _ =>
            if (c =? 37) && is_hex_digit h1 && is_hex_digit h2
            then Some 3%nat else None
        | _ => None
        end
  end.

(** The greedy repetition of the group: nothing follows it in the pattern,
    so the repetition takes atoms as long as one matches. *)
Fixpoint url_run (skip : nat) (s : pystr) : nat :=
  match s with
  | [] => 0%nat
  | _ :: s' =>
      match skip with
      | S k => S (url_run k s')
      | O =>
          match url_atom s with
          | Some n => S (url_run (n - 1) s')
          | None => 0%nat
          end
      end
  end.

(** The tail [://(?:...)+] of the pattern; [n] characters were matched before. *)
Definition match_url_tail (n : nat) (s : pystr) : option nat :=
  if startswith (py "://") s then
    let k := url_run 0 (drop 3 s) in
    if (0 <? k)%nat then Some (n + 3 + k)%nat else None
  else None.

(** The length of the match of the URL pattern at the start of [s]. *)
Definition match_url (s : pystr) : option nat :=
  if startswith (py "http") s then
    let r := drop 4 s in
    match r with
    | 115 :: r' =>
        match match_url_tail 5 r' with
        | Some m => Some m
        | None => match_url_tail 4 r
        end
    | _ => match_url_tail 4 r
    end
  else None.

(** [re.findall(url_pattern, s)]: the matches from left to right, the search
    resuming at the end of each match. *)
Fixpoint findall_urls (skip : nat) (s : pystr) : list pystr :=
  match s with
  | [] => []
  | _ :: s' =>
      match skip with
      | S k => findall_urls k s'
      | O =>
          match match_url s with
          | Some n => take n s :: findall_urls (n - 1) s'
          | None => findall_urls 0 s'
          end
      end
  end.

(** [s.find(c)] *)
Fixpoint str_find (c : char) (s : pystr) : option nat :=
  match s with
  | [] => None
  | x :: s' => if x =? c then Some 0%nat else option_map S (str_find c s')
  end.

Definition str_contains_char (c : char) (s : pystr) : bool :=
  existsb (N.eqb c) s.

Definition is_scheme_char (c : char) : bool :=
  ascii_is_alpha c || ascii_is_digit c || (c =? 43) || (c =? 45) || (c =? 46).

(** The part of [url] before the first of [/], [?], [#] ([_splitnetloc]). *)
Fixpoint netloc_of (url : pystr) : pystr :=
  match url with
  | [] => []
  | c :: url' =>
      if (c =? 47) || (c =? 63) || (c =? 35) then [] else c :: netloc_of url'
  end.

Record parse_result : Type := {
  pr_scheme : pystr;
  pr_netloc : pystr
}.

(** [urllib.parse.urlparse(url)], the two components the analyzer reads.
    The library first removes leading control characters and tabs and
    newlines, and checks a non-ASCII host; the pattern above gives ASCII
    text that starts with [h] and has none of these characters. Later
    versions of the library also validate the address between matching
    brackets, which is not modelled. *)
Definition urlparse (url : pystr) : result parse_result :=
  let split :=
    match str_find 58 url with
    | Some (S i) =>
        if ascii_is_alpha (hd 0 url) && forallb is_scheme_char (take (S i) url)
        then (List.map ascii_lower (take (S i) url), drop (S (S i)) url)
        else ([], url)
    | _ => ([], url)
    end in
  let rest := snd split in
  if startswith (py "//") rest then
    let netloc := netloc_of (drop 2 rest) in
    if (str_contains_char 91 netloc && negb (str_contains_char 93 netloc))
       || (str_contains_char 93 netloc && negb (str_contains_char 91 netloc))
    then Raise ValueError
    else Ok {| pr_scheme := fst split; pr_netloc := netloc |}
  else Ok {| pr_scheme := fst split; pr_netloc := [] |}.

Record link : Type := {
  url : pystr;
  domain : pystr;
  scheme : pystr;
  count : nat
}.

(** [list(set(urls))] has no defined order; the order of [elements] stands
    for it. *)
Definition extract_links (text : pystr) : result (list link) :=
  let urls := findall_urls 0 text in
  let unique_urls := elements (list_to_set urls : gset pystr) in
  map_result
    (fun u =>
       do parsed <- urlparse u;
       Ok {| url := u;
             domain := pr_netloc parsed;
             scheme := pr_scheme parsed;
             count := str_count text u |})
    unique_urls.

(** ** [_detect_language] *)

Definition english_words : gset pystr :=
  list_to_set (List.map py ["the"; "is"; "and"; "to"; "of"; "in"; "that"; "for"]%string).
Definition spanish_words : gset pystr :=
  list_to_set (List.map py ["el"; "la"; "de"; "que"; "y"; "en"; "es"; "por"]%string).
(** [être] and [à] are given by their code points. *)
Definition french_words : gset pystr :=
  list_to_set ([py "le"; py "de"; py "un"; py "et"; [234; 116; 114; 101]; [224];
                py "il"; py "que"]).
Definition german_words : gset pystr :=
  list_to_set (List.map py ["der"; "die"; "und"; "in"; "den"; "von"; "zu"; "das"]%string).

Definition detect_language `{UnicodeDb} (text : pystr) : pystr :=
  let words : gset pystr := list_to_set (str_split (str_lower text)) in
  let en_count := size (words ∩ english_words) in
  let es_count := size (words ∩ spanish_words) in
  let fr_count := size (words ∩ french_words) in
  let de_count := size (words ∩ german_words) in
  let max_count := Nat.max (Nat.max (Nat.max en_count es_count) fr_count) de_count in
  if (max_count =? 0)%nat then py "unknown"
  else if (max_count =? en_count)%nat then py "en"
  else if (max_count =? es_count)%nat then py "es"
  else if (max_count =? fr_count)%nat then py "fr"
  else if (max_count =? de_count)%nat then py "de"
  else py "unknown".

(** ** Regular expressions of the list patterns

    [re.match(pattern, line)] succeeds when some prefix of [line] matches;
    the patterns are followed by derivatives. *)

Inductive regex : Type :=
  | Void
  | Eps
  | Chr (p : char -> bool)
  | Cat (r1 r2 : regex)
  | Alt (r1 r2 : regex)
  | Star (r : regex).

Fixpoint nullable (r : regex) : bool :=
  match r with
  | Void => false
  | Eps => true
  | Chr _ => false
  | Cat r1 r2 => nullable r1 && nullable r2
  | Alt r1 r2 => nullable r1 || nullable r2
  | Star _ => true
  end.

Fixpoint deriv (c : char) (r : regex) : regex :=
  match r with
  | Void => Void
  | Eps => Void
  | Chr p => if p c then Eps else Void
  | Cat r1 r2 =>
      if nullable r1 then Alt (Cat (deriv c r1) r2) (deriv c r2)
      else Cat (deriv c r1) r2
  | Alt r1 r2 => Alt (deriv c r1) (deriv c r2)
  | Star r1 => Cat (deriv c r1) (Star r1)
  end.

Fixpoint re_match (r : regex) (s : pystr) : bool :=
  nullable r ||
  match s with
  | [] => false
  | c :: s' => re_match (deriv c r) s'
  end.

Definition Plus (r : regex) : regex := Cat r (Star r).

Definition is_bullet (c : char) : bool := (c =? 45) || (c =? 42) || (c =? 8226).
Definition is_dot_or_paren (c : char) : bool := (c =? 46) || (c =? 41).

(** [^\s*[\-\*\•]\s+] *)
Definition bullet_pattern : regex :=
  Cat (Star (Chr isspace)) (Cat (Chr is_bullet) (Plus (Chr isspace))).

(** [^\s*\d+[\.\)]\s+] *)
Definition numbered_pattern `{UnicodeDb} : regex :=
  Cat (Star (Chr isspace))
      (Cat (Plus (Chr re_digit)) (Cat (Chr is_dot_or_paren) (Plus (Chr isspace)))).

(** [^\s*[a-z][\.\)]\s+] *)
Definition lettered_pattern : regex :=
  Cat (Star (Chr isspace))
      (Cat (Chr ascii_is_lower) (Cat (Chr is_dot_or_paren) (Plus (Chr isspace)))).

(** ** [_analyze_structure] and [_guess_heading_level] *)

Record heading : Type := {
  h_text : pystr;
  h_position : nat;
  h_level : nat
}.

Inductive list_kind : Type := bullet | numbered.

Record list_item : Type := {
  li_text : pystr;
  li_position : nat;
  li_type : list_kind
}.

Record structure_report : Type := {
  headings : list heading;
  listItems : list list_item;
  hasStructure : bool
}.

Definition guess_heading_level `{UnicodeDb} (text : pystr) : nat :=
  if str_isupper text then 1%nat
  else if (length (str_split text) <=? 5)%nat then 2%nat
  else 3%nat.

(** The headings found by the first loop over [enumerate(lines)]. *)
Definition potential_headings `{UnicodeDb} (lines : list pystr) : list heading :=
  flat_map
    (fun p : nat * pystr =>
       let i := fst p in
       let line_stripped := str_strip (snd p) in
       let w := length (str_split line_stripped) in
       if (3 <? w)%nat && (w <=? 10)%nat then
         match lines !! (i + 1)%nat with
         | Some next =>
             if (10 <? length (str_split (str_strip next)))%nat
             then [ {| h_text := line_stripped;
                       h_position := i;
                       h_level := guess_heading_level line_stripped |} ]
             else []
         | None => []
         end
       else [])
    (enumerate lines).

(** The list items found by the second loop: the first pattern that matches
    decides, and only the first pattern is reported as a bullet. *)
Definition detect_list_items `{UnicodeDb} (lines : list pystr) : list list_item :=
  flat_map
    (fun p : nat * pystr =>
       let i := fst p in
       let line := snd p in
       if re_match bullet_pattern line then
         [ {| li_text := str_strip line; li_position := i; li_type := bullet |} ]
       else if re_match numbered_pattern line || re_match lettered_pattern line then
         [ {| li_text := str_strip line; li_position := i; li_type := numbered |} ]
       else [])
    (enumerate lines).

Definition analyze_structure `{UnicodeDb} (text : pystr) : structure_report :=
  let lines := str_split_sep [LF] text in
  let hs := potential_headings lines in
  let list_items := detect_list_items lines in
  {| headings := hs;
     listItems := list_items;
     hasStructure := (0 <? length hs)%nat || (0 <? length list_items)%nat |}.

(** ** [analyze_document] *)

(** The recognised keys of [options]; a key that is absent has its default. *)
Record options : Type := {
  opt_wordCount : bool;
  opt_extractKeywords : bool;
  opt_summarize : bool;
  opt_extractLinks : bool;
  opt_detectLanguage : bool
}.

(** [options = None] or [{}]. *)
Definition default_options : options :=
  {| opt_wordCount := true; opt_extractKeywords := false; opt_summarize := false;
     opt_extractLinks := false; opt_detectLanguage := false |}.

(** The dictionary [results]: a key is present when its analysis ran. *)
Record report : Type := {
  r_statistics : option statistics;
  r_keywords : option (list keyword_entry);
  r_summary : option pystr;
  r_links : option (list link);
  r_language : option pystr;
  r_structure : structure_report
}.

(** Runs [m] when the flag is set. *)
Definition when {A} (flag : bool) (m : result A) : result (option A) :=
  if flag then do a <- m; Ok (Some a) else Ok None.

Definition analyze_document `{UnicodeDb} (text_content : pystr) (opts : options)
  : result report :=
  do st <- when (opt_wordCount opts) (calculate_statistics text_content);
  do kw <- when (opt_extractKeywords opts) (extract_keywords text_content 20);
  do su <- when (opt_summarize opts) (generate_summary text_content 5);
  do li <- when (opt_extractLinks opts) (extract_links text_content);
  do la <- when (opt_detectLanguage opts) (Ok (detect_language text_content));
  Ok {| r_statistics := st; r_keywords := kw; r_summary := su; r_links := li;
        r_language := la; r_structure := analyze_structure text_content |}.

(** ** Document trees: [extract_tables] and [_parse_table] *)

Local Unset Elimination Schemes.

(** The values of a document tree as the client library decodes them. A
    dict is the list of its items, keys being strings. *)
Inductive pyval : Type :=
  | PNone
  | PBool (b : bool)
  | PInt (z : Z)
  | PStr (s : pystr)
  | PList (l : list pyval)
  | PDict (d : list (pystr * pyval)).

Local Set Elimination Schemes.

Fixpoint dict_lookup (key : pystr) (d : list (pystr * pyval)) : option pyval :=
  match d with
  | [] => None
  | (k, v) :: d' => if bool_decide (k = key) then Some v else dict_lookup key d'
  end.

(** [sub in s] for strings. *)
Fixpoint is_substring (sub s : pystr) : bool :=
  startswith sub s ||
  match s with
  | [] => false
  | _ :: s' => is_substring sub s'
  end.

(** [key in v] *)
Definition py_contains (key : pystr) (v : pyval) : result bool :=
  match v with
  | PDict d => Ok (bool_decide (is_Some (dict_lookup key d)))
  | PStr s => Ok (is_substring key s)
  | PList l =>
      Ok (existsb (fun x => match x with
                            | PStr s => bool_decide (s = key)
                            | _ => false
                            end) l)
  | _ => Raise TypeError
  end.

(** [v[key]] for a string [key] *)
Definition py_getitem (v : pyval) (key : pystr) : result pyval :=
  match v with
  | PDict d =>
      match dict_lookup key d with
      | Some x => Ok x
      | None => Raise (KeyError key)
      end
  | _ => Raise TypeError
  end.

(** [v.get(key, default)] *)
Definition py_get (v : pyval) (key : pystr) (default : pyval) : result pyval :=
  match v with
  | PDict d =>
      match dict_lookup key d with
      | Some x => Ok x
      | None => Ok default
      end
  | _ => Raise AttributeError
  end.

(** The items visited by [for x in v]. *)
Definition py_iter (v : pyval) : result (list pyval) :=
  match v with
  | PList l => Ok l
  | PDict d => Ok (List.map (fun kv => PStr (fst kv)) d)
  | PStr s => Ok (List.map (fun c => PStr [c]) s)
  | _ => Raise TypeError
  end.

(** [''.join(parts)] *)
Fixpoint py_join_empty (parts : list pyval) : result pystr :=
  match parts with
  | [] => Ok []
  | PStr s :: parts' => do r <- py_join_empty parts'; Ok (s ++ r)
  | _ :: _ => Raise TypeError
  end.

(** The results of a loop that appends to one list. *)
Fixpoint flat_map_result {A B} (f : A -> result (list B)) (l : list A)
  : result (list B) :=
  match l with
  | [] => Ok []
  | a :: l' => do b <- f a; do bs <- flat_map_result f l'; Ok (b ++ bs)
  end.

Record table : Type := {
  rows : nat;
  columns : nat;
  data : list (list pystr)
}.

(** The text runs appended to [cell_text] for one element of a paragraph. *)
Definition element_runs (element : pyval) : result (list pyval) :=
  do has_run <- py_contains (py "textRun") element;
  if has_run then
    do run <- py_getitem element (py "textRun");
    do content <- py_getitem run (py "content");
    Ok [content]
  else Ok [].

(** The text runs appended for one entry of a cell's [content]. *)
Definition content_runs (content : pyval) : result (list pyval) :=
  do has_par <- py_contains (py "paragraph") content;
  if has_par then
    do par <- py_getitem content (py "paragraph");
    do elements_v <- py_get par (py "elements") (PList []);
    do elems <- py_iter elements_v;
    flat_map_result element_runs elems
  else Ok [].

Definition parse_cell (cell : pyval) : result pystr :=
  do content_v <- py_get cell (py "content") (PList []);
  do contents <- py_iter content_v;
  do cell_text <- flat_map_result content_runs contents;
  do joined <- py_join_empty cell_text;
  Ok (str_strip joined).

Definition parse_row (row : pyval) : result (list pystr) :=
  do cells_v <- py_get row (py "tableCells") (PList []);
  do cells <- py_iter cells_v;
  map_result parse_cell cells.

Definition parse_table (table_element : pyval) : result table :=
  do rows_v <- py_get table_element (py "tableRows") (PList []);
  do row_list <- py_iter rows_v;
  do parsed <- map_result parse_row row_list;
  Ok {| rows := length parsed;
        columns := match parsed with r0 :: _ => length r0 | [] => 0%nat end;
        data := parsed |}.

Definition extract_tables (document_data : pyval) : result (list table) :=
  do has_body <- py_contains (py "body") document_data;
  if negb has_body then Ok []
  else
    do body <- py_getitem document_data (py "body");
    do has_content <- py_contains (py "content") body;
    if negb has_content then Ok []
    else
      do content <- py_getitem body (py "content");
      do elems <- py_iter content;
      flat_map_result
        (fun element =>
           do is_table <- py_contains (py "table") element;
           if is_table then
             do t <- py_getitem element (py "table");
             do table_data <- parse_table t;
             Ok [table_data]
           else Ok [])
        elems.

(** A paragraph element holding one text run. *)
Definition text_run (s : string) : pyval :=
  PDict [(py "textRun", PDict [(py "content", PStr (py s))])].

(** A table cell holding one paragraph with the given elements. *)
Definition cell_of (elements : list pyval) : pyval :=
  PDict [(py "content",
          PList [PDict [(py "paragraph", PDict [(py "elements", PList elements)])]])].

(** A document whose body holds one table with the given rows of cells. *)
Definition document_of (cells : list (list pyval)) : pyval :=
  PDict [(py "body",
          PDict [(py "content",
                  PList [PDict [(py "table",
                    PDict [(py "tableRows",
                      PList (List.map (fun r => PDict [(py "tableCells", PList r)]) cells))])]])])].

(** ** The vocabulary of the specification *)

(** The four languages of the heuristic, in their priority order. *)
Inductive language : Type := English | Spanish | French | German.

Definition language_code (l : language) : pystr :=
  match l with
  | English => py "en"
  | Spanish => py "es"
  | French => py "fr"
  | German => py "de"
  end.

Definition language_words (l : language) : gset pystr :=
  match l with
  | English => english_words
  | Spanish => spanish_words
  | French => french_words
  | German => german_words
  end.

(** The place of a language in the order English, Spanish, French, German. *)
Definition priority (l : language) : nat :=
  match l with
  | English => 0%nat
  | Spanish => 1%nat
  | French => 2%nat
  | German => 3%nat
  end.

(** The number of distinct words of the lowercased text that belong to the
    word set of [l]. *)
Definition overlap `{UnicodeDb} (text : pystr) (l : language) : nat :=
  size ((list_to_set (str_split (str_lower text)) : gset pystr) ∩ language_words l).

(** The entry reported for an item of the counter when [len] tokens were
    retained. *)
Definition entry_of (len : nat) (wc : pystr * nat) : keyword_entry :=
  {| keyword := fst wc;
     frequency := snd wc;
     relevance :=
       py_round (inject_Z (Z.of_nat (snd wc)) / inject_Z (Z.of_nat len) * 100)%Q 2 |}.

(** All five analyses switched on, as the actor does by default. *)
Definition all_options : options :=
  {| opt_wordCount := true; opt_extractKeywords := true; opt_summarize := true;
     opt_extractLinks := true; opt_detectLanguage := true |}.

(** The count a counter holds for [k], 0 when [k] is no key. *)
Fixpoint counter_get (k : pystr) (c : list (pystr * nat)) : nat :=
  match c with
  | [] => 0%nat
  | (k', n) :: c' => ((if bool_decide (k' = k) then n else 0) + counter_get k c')%nat
  end.

(** The number of occurrences of [k] in a list of tokens. *)
Definition occurrences (k : pystr) (l : list pystr) : nat :=
  length (List.filter (fun w => bool_decide (w = k)) l).

(** The scored sentence at [p] of the enumeration when [n] sentences were
    retained. *)
Definition score_entry (n : nat) (p : nat * pystr) : Q * pystr :=
  ((inject_Z (Z.of_nat (length (str_split (snd p)))) *
    (1 - inject_Z (Z.of_nat (fst p)) / inject_Z (Z.of_nat n) * (1 # 2)))%Q,
   snd p).

(** The sentences of [top_sentences] when more than [max_sentences] were
    retained. *)
Definition top_sentences (sentences : list pystr) (max_sentences : nat) : list pystr :=
  List.map snd
    (take max_sentences
       (sort_desc (fun x y => Qlt_bool (fst x) (fst y))
          (List.map (score_entry (length sentences))
             (enumerate (take (Nat.min (length sentences) 50) sentences))))).

(** A host with [[] and no []], or with []] and no [[]. *)
Definition unbalanced_brackets (netloc : pystr) : bool :=
  (str_contains_char 91 netloc && negb (str_contains_char 93 netloc))
  || (str_contains_char 93 netloc && negb (str_contains_char 91 netloc)).

(** The shape of a match of the URL pattern: [http://] or [https://], then
    at least one character of the group. *)
Definition url_shape (u scheme_name rest : pystr) : Prop :=
  (scheme_name = py "http" \/ scheme_name = py "https") /\
  u = scheme_name ++ py "://" ++ rest /\
  rest <> [] /\
  forallb is_url_char rest = true.

(** The strings a pattern matches in full. *)
Inductive lang : regex -> pystr -> Prop :=
  | lang_eps : lang Eps []
  | lang_chr (p : char -> bool) (c : char) : p c = true -> lang (Chr p) [c]
  | lang_cat (r1 r2 : regex) (s1 s2 : pystr) :
      lang r1 s1 -> lang r2 s2 -> lang (Cat r1 r2) (s1 ++ s2)
  | lang_alt_l (r1 r2 : regex) (s : pystr) : lang r1 s -> lang (Alt r1 r2) s
  | lang_alt_r (r1 r2 : regex) (s : pystr) : lang r2 s -> lang (Alt r1 r2) s
  | lang_star_nil (r : regex) : lang (Star r) []
  | lang_star_cons (r : regex) (s1 s2 : pystr) :
      lang r s1 -> lang (Star r) s2 -> lang (Star r) (s1 ++ s2).

(** A line that starts, after any whitespace, with a bullet glyph and a
    whitespace character. *)
Definition bullet_line (line : pystr) : Prop :=
  exists ws b w rest,
    line = ws ++ b :: w :: rest /\
    forallb isspace ws = true /\ is_bullet b = true /\ isspace w = true.

(** A line that starts, after any whitespace, with digits, then [.] or [)],
    then a whitespace character. *)
Definition numbered_line `{UnicodeDb} (line : pystr) : Prop :=
  exists ws ds d w rest,
    line = ws ++ ds ++ d :: w :: rest /\
    forallb isspace ws = true /\ ds <> [] /\ forallb re_digit ds = true /\
    is_dot_or_paren d = true /\ isspace w = true.

(** A line that starts, after any whitespace, with one letter of [a-z],
    then [.] or [)], then a whitespace character. *)
Definition lettered_line (line : pystr) : Prop :=
  exists ws a d w rest,
    line = ws ++ a :: d :: w :: rest /\
    forallb isspace ws = true /\ ascii_is_lower a = true /\
    is_dot_or_paren d = true /\ isspace w = true.

(** ** [GoogleDocsClient.get_document_text] (google_docs_client.py)

    The text of the document that [read_document] returned. *)

(** The runs appended for a body element that holds a paragraph. *)
Definition paragraph_runs (element : pyval) : result (list pyval) :=
  do par <- py_getitem element (py "paragraph");
  do elements_v <- py_get par (py "elements") (PList []);
  do elems <- py_iter elements_v;
  flat_map_result element_runs elems.

(** The runs appended for a body element that holds a table. *)
Definition table_runs (element : pyval) : result (list pyval) :=
  do t <- py_getitem element (py "table");
  do rows_v <- py_get t (py "tableRows") (PList []);
  do row_list <- py_iter rows_v;
  flat_map_result
    (fun row =>
       do cells_v <- py_get row (py "tableCells") (PList []);
       do cells <- py_iter cells_v;
       flat_map_result
         (fun cell =>
            do content_v <- py_get cell (py "content") (PList []);
            do contents <- py_iter content_v;
            flat_map_result content_runs contents)
         cells)
    row_list.

Definition body_element_runs (element : pyval) : result (list pyval) :=
  do is_par <- py_contains (py "paragraph") element;
  if is_par then paragraph_runs element
  else
    do is_table <- py_contains (py "table") element;
    if is_table then table_runs element else Ok [].

(** The body of the [try] block. *)
Definition document_text (document : pyval) : result pystr :=
  do has_body <- py_contains (py "body") document;
  do text_content <-
    (if has_body then
       do body <- py_getitem document (py "body");
       do has_content <- py_contains (py "content") body;
       if has_content then
         do content <- py_getitem body (py "content");
         do elems <- py_iter content;
         flat_map_result body_element_runs elems
       else Ok []
     else Ok []);
  py_join_empty text_content.

(** What a method of the client gives: a value, or the [Exception] that
    its [except] clause raises in place of the one it caught. *)
Inductive client_result (A : Type) : Type :=
  | Returned (a : A)
  | ClientError (message : string) (cause : exn).
Arguments Returned {A} a.
Arguments ClientError {A} message cause.

Definition get_document_text (document : pyval) : client_result pystr :=
  match document_text document with
  | Ok text => Returned text
  | Raise e => ClientError "Error extracting text" e
  end.

(** ** [GoogleDocsClient.search_in_document] (google_docs_client.py) *)

(** [s[lo:hi]] for [0 <= lo] *)
Definition str_slice (s : pystr) (lo hi : nat) : pystr := take (hi - lo) (drop lo s).

(** The first index at or after [i] where [sub] starts, [s] being the text
    from index [i] on. *)
Fixpoint find_aux (sub s : pystr) (i : nat) : option nat :=
  if startswith sub s then Some i
  else
    match s with
    | [] => None
    | _ :: s' => find_aux sub s' (S i)
    end.

(** [s.find(sub, start)], [None] standing for -1. *)
Definition str_find_from (s sub : pystr) (start : nat) : option nat :=
  if (start <=? length s)%nat then find_aux sub (drop start s) start else None.

Record search_match : Type := {
  m_position : nat;
  m_text : pystr;
  m_context : pystr
}.

(** The entry appended for a match at [index]. *)
Definition search_entry (text_content search_query : pystr) (index : nat)
  : search_match :=
  {| m_position := index;
     m_text := str_slice text_content index (index + length search_query);
     m_context :=
       str_slice text_content
         (Z.to_nat (Z.max 0 (Z.of_nat index - 50)))
         (index + length search_query + 50) |}.

(** The [while True] loop; [None] when [fuel] iterations were not enough. *)
Fixpoint search_loop (fuel : nat) (text_content search_query : pystr)
    (text_lower search_lower : pystr) (start : nat) (matches : list search_match)
  : option (list search_match) :=
  match fuel with
  | O => None
  | S fuel' =>
      match str_find_from text_lower search_lower start with
      | None => Some matches
      | Some index =>
          search_loop fuel' text_content search_query text_lower search_lower
            (index + 1)
            (matches ++ [search_entry text_content search_query index])
      end
  end.

(** The search in the text that [get_document_text] returned. *)
Definition search_in_document `{UnicodeDb} (fuel : nat)
    (text_content search_query : pystr) : option (list search_match) :=
  search_loop fuel text_content search_query
    (str_lower text_content) (str_lower search_query) 0 [].

(** The indices, in increasing order, where [sub] starts in [s], the text
    from index [i] on. *)
Fixpoint occurrences_from (sub s : pystr) (i : nat) : list nat :=
  (if startswith sub s then [i] else []) ++
  match s with
  | [] => []
  | _ :: s' => occurrences_from sub s' (S i)
  end.

(** ** [GoogleDocsClient._parse_color] (google_docs_client.py) *)

(** What [int(s, 16)] gives for a string that is not made of the digits
    [0-9a-fA-F] only (a sign, blanks, underscores, a [0x] prefix, digits of
    other scripts); [None] stands for [ValueError]. *)
Class IntParser : Type := {
  int16_other : pystr -> option Z
}.

Definition hex_digit_value (c : char) : Z :=
  if ascii_is_digit c then Z.of_N c - 48
  else if (97 <=? c) && (c <=? 102) then Z.of_N c - 87
  else Z.of_N c - 55.

(** [int(s, 16)] *)
Definition py_int16 `{IntParser} (s : pystr) : result Z :=
  match s with
  | [] => Raise ValueError
  | _ :: _ =>
      if forallb is_hex_digit s
      then Ok (fold_left (fun acc c => (16 * acc + hex_digit_value c)%Z) s 0%Z)
      else
        match int16_other s with
        | Some z => Ok z
        | None => Raise ValueError
        end
  end.

(** [s.lstrip(c)] for one character *)
Fixpoint str_lstrip_char (c : char) (s : pystr) : pystr :=
  match s with
  | [] => []
  | x :: s' => if x =? c then str_lstrip_char c s' else s
  end.

Record rgb_color : Type := {
  red : Q;
  green : Q;
  blue : Q
}.

Definition parse_color `{IntParser} (color_hex : pystr) : result rgb_color :=
  let color_hex := str_lstrip_char 35 color_hex in
  do r <- py_int16 (str_slice color_hex 0 2);
  do g <- py_int16 (str_slice color_hex 2 4);
  do b <- py_int16 (str_slice color_hex 4 6);
  Ok {| red := (inject_Z r / 255)%Q;
        green := (inject_Z g / 255)%Q;
        blue := (inject_Z b / 255)%Q |}.

(** The parser that rejects every string it is asked about. *)
Definition strict_int_parser : IntParser := {| int16_other := fun _ => None |}.

(** ** Well-formed document trees

    A document as the service sends it, where every key that the analyzer
    reads with a default may be absent. *)

Inductive run_elem : Type :=
  | ERun (content : pystr)
  | EOther.

Inductive content_item : Type :=
  | CParagraph (elements : option (list run_elem))
  | COther.

Inductive body_elem : Type :=
  | BParagraph (elements : option (list run_elem))
  | BTable (table_rows : option (list (option (list (option (list content_item))))))
  | BOther.

Inductive document : Type :=
  | DNoBody
  | DNoContent
  | DContent (content : list body_elem).

(** The item of a dict for a key that may be absent. *)
Definition opt_item (key : string) (v : option pyval) : list (pystr * pyval) :=
  match v with
  | Some x => [(py key, x)]
  | None => []
  end.

Definition encode_list {A} (f : A -> pyval) (l : option (list A)) : option pyval :=
  option_map (fun xs => PList (List.map f xs)) l.

Definition encode_elem (e : run_elem) : pyval :=
  match e with
  | ERun s => PDict [(py "textRun", PDict [(py "content", PStr s)])]
  | EOther => PDict []
  end.

Definition encode_paragraph (elements : option (list run_elem)) : pyval :=
  PDict [(py "paragraph", PDict (opt_item "elements" (encode_list encode_elem elements)))].

Definition encode_content (c : content_item) : pyval :=
  match c with
  | CParagraph elements => encode_paragraph elements
  | COther => PDict []
  end.

Definition encode_cell (c : option (list content_item)) : pyval :=
  PDict (opt_item "content" (encode_list encode_content c)).

Definition encode_row (r : option (list (option (list content_item)))) : pyval :=
  PDict (opt_item "tableCells" (encode_list encode_cell r)).

Definition encode_body_elem (b : body_elem) : pyval :=
  match b with
  | BParagraph elements => encode_paragraph elements
  | BTable t => PDict [(py "table", PDict (opt_item "tableRows" (encode_list encode_row t)))]
  | BOther => PDict []
  end.

Definition encode_document (d : document) : pyval :=
  match d with
  | DNoBody => PDict []
  | DNoContent => PDict [(py "body", PDict [])]
  | DContent l =>
      PDict [(py "body", PDict [(py "content", PList (List.map encode_body_elem l))])]
  end.

(** The list under a key, empty when the key is absent. *)
Definition present {A} (l : option (list A)) : list A :=
  match l with
  | Some xs => xs
  | None => []
  end.

Definition runs_of (elements : option (list run_elem)) : list pystr :=
  flat_map (fun e => match e with ERun s => [s] | EOther => [] end) (present elements).

Definition cell_runs (c : option (list content_item)) : list pystr :=
  flat_map (fun ci => match ci with CParagraph els => runs_of els | COther => [] end)
           (present c).

Definition table_of (t : option (list (option (list (option (list content_item))))))
  : table :=
  let cells :=
    List.map (fun r => List.map (fun c => str_strip (concat (cell_runs c))) (present r))
             (present t) in
  {| rows := length cells;
     columns := match cells with r0 :: _ => length r0 | [] => 0%nat end;
     data := cells |}.

Definition tables_of (d : document) : list table :=
  match d with
  | DContent l =>
      flat_map (fun b => match b with BTable t => [table_of t] | _ => [] end) l
  | _ => []
  end.

Definition text_of (d : document) : pystr :=
  match d with
  | DContent l =>
      concat
        (flat_map
           (fun b =>
              match b with
              | BParagraph els => runs_of els
              | BTable t => flat_map (fun r => flat_map cell_runs (present r)) (present t)
              | BOther => []
              end) l)
  | _ => []
  end.

(** The distinct tokens of a list, in the order of their first
    appearance. *)
Fixpoint first_seen (l : list pystr) : list pystr :=
  match l with
  | [] => []
  | w :: l' => w :: List.filter (fun x => negb (bool_decide (x = w))) (first_seen l')
  end.

(** * Properties *)

(** ** The model on concrete inputs *)

Example builtins_on_samples :
  str_strip (py "  a b " ++ [LF]) = py "a b" /\
  str_split ([9] ++ py " ab   c " ++ [LF] ++ py "d") = [py "ab"; py "c"; py "d"] /\
  str_split_sep [LF] [] = [[]] /\
  str_split_sep [LF; LF] (py "a" ++ [LF; LF; LF] ++ py "b") = [py "a"; LF :: py "b"] /\
  re_split_runs is_sentence_end (py "a..b!") = [py "a"; py "b"; []] /\
  re_split_runs is_sentence_end (py "?a") = [[]; py "a"] /\
  str_replace [SPACE] [] (py " a  b ") = py "ab" /\
  str_count (py "aaa") (py "aa") = 1%nat /\
  str_join (py ". ") [py "a"; py "b"] = py "a. b".
Proof. vm_compute. repeat split. Qed.

Example stats_two_lines :
  calculate_statistics (py "Hello world." ++ [LF] ++ py "Bye now!") =
  Ok {| characterCount := 21; characterCountNoSpaces := 18; wordCount := 4;
        lineCount := 2; paragraphCount := 1; sentenceCount := 2;
        averageWordLength := 9 # 2; averageSentenceLength := 2;
        readingTime := 0 |}.
Proof. vm_compute. reflexivity. Qed.

Example keywords_small :
  @extract_keywords ascii_db (py "Parser tests: the parser passes tests, mostly.") 2 =
  Ok [ {| keyword := py "parser"; frequency := 2; relevance := 3333 # 100 |};
       {| keyword := py "tests"; frequency := 2; relevance := 3333 # 100 |} ].
Proof. vm_compute. reflexivity. Qed.

Example summary_max1 :
  generate_summary
    (py "Hello world. This is a test sentence for summarization testing purposes today.") 1 =
  Ok (py "This is a test sentence for summarization testing purposes today.").
Proof. vm_compute. reflexivity. Qed.

Example links_two :
  extract_links (py "see https://a.io/x?y=1 and http://b.org.") =
  Ok [ {| url := py "http://b.org."; domain := py "b.org."; scheme := py "http"; count := 1 |};
       {| url := py "https://a.io/x?y=1"; domain := py "a.io"; scheme := py "https"; count := 1 |} ]
  \/
  extract_links (py "see https://a.io/x?y=1 and http://b.org.") =
  Ok [ {| url := py "https://a.io/x?y=1"; domain := py "a.io"; scheme := py "https"; count := 1 |};
       {| url := py "http://b.org."; domain := py "b.org."; scheme := py "http"; count := 1 |} ].
Proof. vm_compute. first [ left; reflexivity | right; reflexivity ]. Qed.

Example language_english :
  @detect_language ascii_db (py "the cat is happy and ready to go in the end of all") = py "en".
Proof. vm_compute. reflexivity. Qed.

Example structure_heading :
  @analyze_structure ascii_db
    (py "An Overview Of The Parser" ++ [LF] ++
     py "one two three four five six seven eight nine ten eleven twelve" ++ [LF] ++
     py "- first point") =
  {| headings := [ {| h_text := py "An Overview Of The Parser"; h_position := 0; h_level := 2 |} ];
     listItems := [ {| li_text := py "- first point"; li_position := 2; li_type := bullet |} ];
     hasStructure := true |}.
Proof. vm_compute. reflexivity. Qed.

Example tables_two_by_two :
  extract_tables
    (document_of [ [cell_of [text_run "a"; text_run "b "]; cell_of [text_run " c"]];
                   [cell_of []; cell_of [text_run "d"]] ]) =
  Ok [ {| rows := 2; columns := 2;
          data := [ [py "ab"; py "c"]; [[]; py "d"] ] |} ].
Proof. vm_compute. reflexivity. Qed.

(** ** Trimming *)

Lemma forallb_isspace_rev (l : pystr) :
  forallb isspace l = true -> forallb isspace (rev l) = true.
Proof.
  rewrite !forallb_forall. intros Hl c Hc. apply Hl. now apply in_rev.
Qed.

Lemma lstrip_spaces_app (l s : pystr) :
  forallb isspace l = true -> str_lstrip (l ++ s) = str_lstrip s.
Proof.
  induction l as [|c l IH]; simpl; [reflexivity|].
  intros H. apply andb_prop in H as [Hc Hl]. rewrite Hc. auto.
Qed.

Lemma lstrip_all_space (l : pystr) :
  forallb isspace l = true -> str_lstrip l = [].
Proof.
  intros H. rewrite <- (app_nil_r l). now rewrite lstrip_spaces_app.
Qed.

Lemma lstrip_app_cases (t r : pystr) :
  forallb isspace t = true \/ str_lstrip (t ++ r) = str_lstrip t ++ r.
Proof.
  induction t as [|c t IH]; simpl; [now left|].
  destruct (isspace c) eqn:Hc; simpl; [exact IH | now right].
Qed.

Lemma rstrip_app_spaces (s r : pystr) :
  forallb isspace r = true -> str_rstrip (s ++ r) = str_rstrip s.
Proof.
  intros H. unfold str_rstrip. rewrite rev_app_distr.
  rewrite lstrip_spaces_app; [reflexivity | now apply forallb_isspace_rev].
Qed.

Lemma strip_padding (l t r : pystr) :
  forallb isspace l = true -> forallb isspace r = true ->
  str_strip (l ++ t ++ r) = str_strip t.
Proof.
  intros Hl Hr. unfold str_strip. rewrite lstrip_spaces_app by exact Hl.
  destruct (lstrip_app_cases t r) as [Ht | Happ].
  - rewrite (lstrip_all_space t Ht).
    rewrite lstrip_spaces_app by exact Ht.
    now rewrite (lstrip_all_space r Hr).
  - rewrite Happ. now apply rstrip_app_spaces.
Qed.

(** ** Statistics *)

Lemma split_lines_length (s : pystr) :
  length (split_sep_aux [LF] 0 s) = S (length (List.filter (N.eqb LF) s)).
Proof.
  induction s as [|c s IH]; [reflexivity|].
  cbn [split_sep_aux startswith List.filter length Nat.sub].
  rewrite andb_true_r.
  destruct (LF =? c); cbn [length].
  - now rewrite IH.
  - destruct (split_sep_aux [LF] 0 s); cbn [cons_head length] in *; lia.
Qed.

Lemma py_div_positive (a b : nat) :
  (0 <? b)%nat = true -> exists q, py_div a b = Ok q.
Proof.
  destruct b; [discriminate|]. intros _. eexists. reflexivity.
Qed.

(** The statistics calculator returns, and its line count is the number of
    fields of the trimmed text between line feeds. *)
Lemma calculate_statistics_returns (text : pystr) :
  exists st, calculate_statistics text = Ok st /\
             lineCount st = length (str_split_sep [LF] (str_strip text)).
Proof.
  unfold calculate_statistics.
  set (wc := length (str_split (str_strip text))).
  set (sc := length (List.filter _ (re_split_runs is_sentence_end (str_strip text)))).
  assert (Hw : exists q, (if (0 <? wc)%nat
                          then py_div (sum_lengths (str_split (str_strip text))) wc
                          else Ok 0%Q) = Ok q).
  { destruct (0 <? wc)%nat eqn:E; [now apply py_div_positive | now eexists]. }
  assert (Hs : exists q, (if (0 <? sc)%nat then py_div wc sc else Ok 0%Q) = Ok q).
  { destruct (0 <? sc)%nat eqn:E; [now apply py_div_positive | now eexists]. }
  destruct Hw as [qw ->], Hs as [qs ->].
  cbn [bind py_div]. eexists. split; reflexivity.
Qed.

(** C1, as the code has it: for the empty string the statistics calculator
    returns, every count, both averages and the reading time are 0, and the
    line count is 1, the one empty line that splitting the empty text on
    line feeds gives. *)
Theorem statistics_empty_string :
  calculate_statistics [] =
  Ok {| characterCount := 0; characterCountNoSpaces := 0; wordCount := 0;
        lineCount := 1; paragraphCount := 0; sentenceCount := 0;
        averageWordLength := 0; averageSentenceLength := 0;
        readingTime := 0 |}.
Proof. vm_compute. reflexivity. Qed.

(** C1 fails as stated: the line count of the empty string is 1, not 0. *)
Lemma statistics_empty_line_count_is_one :
  exists st, calculate_statistics [] = Ok st /\
             lineCount st = 1%nat /\ lineCount st <> 0%nat.
Proof. eexists. split; [vm_compute; reflexivity|]. split; [reflexivity | discriminate]. Qed.

(** C10: padding a text with whitespace on either side changes no statistic:
    the calculator gives the same result for the padded and the unpadded
    text. *)
Theorem statistics_padding_invariant (l r text : pystr) :
  forallb isspace l = true -> forallb isspace r = true ->
  calculate_statistics (l ++ text ++ r) = calculate_statistics text.
Proof.
  intros Hl Hr. unfold calculate_statistics.
  now rewrite (strip_padding l text r Hl Hr).
Qed.

Lemma statistics_padding_invariant_witness :
  calculate_statistics (py "  " ++ py "one two. three" ++ [LF; 9]) =
  calculate_statistics (py "one two. three").
Proof.
  apply (statistics_padding_invariant (py "  ") [LF; 9] (py "one two. three"));
    reflexivity.
Defined.

(** C9, as the code has it: the line count is one more than the number of
    line feeds of the trimmed text, and since trimming removes a trailing
    line feed, appending one to a text leaves the line count unchanged. *)
Theorem line_count_trailing_newline (text : pystr) :
  exists st st',
    calculate_statistics text = Ok st /\
    calculate_statistics (text ++ [LF]) = Ok st' /\
    lineCount st = S (length (List.filter (N.eqb LF) (str_strip text))) /\
    lineCount st' = lineCount st.
Proof.
  destruct (calculate_statistics_returns text) as [st [Hst Hl]].
  exists st, st. split; [exact Hst|]. split.
  - rewrite <- Hst. unfold calculate_statistics.
    pose proof (strip_padding [] text [LF] eq_refl eq_refl) as Hp.
    cbn [app] in Hp. now rewrite Hp.
  - split; [|reflexivity]. rewrite Hl. apply split_lines_length.
Qed.

(** C9 fails as stated: appending a line feed to ["a"] does not add a line. *)
Lemma trailing_newline_not_counted :
  exists st st',
    calculate_statistics (py "a") = Ok st /\
    calculate_statistics (py "a" ++ [LF]) = Ok st' /\
    lineCount st = 1%nat /\ lineCount st' = 1%nat /\
    lineCount st' <> S (lineCount st).
Proof.
  do 2 eexists. split; [vm_compute; reflexivity|]. split; [vm_compute; reflexivity|].
  cbn. repeat split; discriminate.
Qed.

(** ** Comprehensions that may raise *)

Lemma map_result_ok {A B} (f : A -> result B) (g : A -> B) (l : list A) :
  (forall a, In a l -> f a = Ok (g a)) -> map_result f l = Ok (List.map g l).
Proof.
  induction l as [|a l IH]; intros Hf; [reflexivity|].
  cbn [map_result List.map].
  rewrite (Hf a (or_introl eq_refl)). cbn [bind].
  rewrite IH by (intros; apply Hf; now right). reflexivity.
Qed.

(** ** Rounding *)

Lemma round_half_even_bounds (y : Q) (a b : Z) :
  (inject_Z a <= y)%Q -> (y <= inject_Z b)%Q ->
  (a <= round_half_even y <= b)%Z.
Proof.
  destruct y as [n d]. unfold Qle, inject_Z, round_half_even. cbn [Qnum Qden].
  rewrite !Z.mul_1_r. intros Ha Hb.
  assert (Hd : (0 < Z.pos d)%Z) by lia.
  pose proof (Z.div_mod n (Z.pos d) ltac:(lia)) as Hdm.
  pose proof (Z.mod_pos_bound n (Z.pos d) Hd) as Hm.
  set (fl := (n / Z.pos d)%Z) in *. set (m := (n mod Z.pos d)%Z) in *.
  assert (Hfl : (a <= fl <= b)%Z) by nia.
  assert (Hup : (0 < m -> fl + 1 <= b)%Z) by nia.
  destruct (2 * m <? Z.pos d)%Z eqn:E1; [exact Hfl|].
  apply Z.ltb_ge in E1.
  destruct (Z.pos d <? 2 * m)%Z eqn:E2; [lia|].
  destruct (Z.even fl); lia.
Qed.

Lemma py_round_bounds (x : Q) (ndigits : nat) (a b : Z) :
  (inject_Z a <= x)%Q -> (x <= inject_Z b)%Q ->
  (inject_Z a <= py_round x ndigits)%Q /\ (py_round x ndigits <= inject_Z b)%Q.
Proof.
  intros Ha Hb. unfold py_round.
  set (k := (10 ^ Z.of_nat ndigits)%Z).
  assert (Hk : (0 < k)%Z) by (apply Z.pow_pos_nonneg; lia).
  assert (Hkq : (0 < inject_Z k)%Q) by (unfold Qlt, inject_Z; cbn; lia).
  destruct (round_half_even_bounds (x * inject_Z k)%Q (a * k) (b * k)) as [Hlo Hhi].
  - rewrite inject_Z_mult. apply Qmult_le_compat_r; [exact Ha | now apply Qlt_le_weak].
  - rewrite inject_Z_mult. apply Qmult_le_compat_r; [exact Hb | now apply Qlt_le_weak].
  - rewrite Qred_correct. split.
    + apply Qle_shift_div_l; [exact Hkq|].
      rewrite <- inject_Z_mult. now rewrite <- Zle_Qle.
    + apply Qle_shift_div_r; [exact Hkq|].
      rewrite <- inject_Z_mult. now rewrite <- Zle_Qle.
Qed.

(** A share [n / len] of a whole, as a percentage, is between 0 and 100. *)
Lemma percentage_bounds (n len : nat) :
  (n <= S len)%nat ->
  (inject_Z 0 <= inject_Z (Z.of_nat n) / inject_Z (Z.of_nat (S len)) * 100)%Q /\
  (inject_Z (Z.of_nat n) / inject_Z (Z.of_nat (S len)) * 100 <= inject_Z 100)%Q.
Proof.
  intros Hn.
  assert (Hlen : (0 < inject_Z (Z.of_nat (S len)))%Q)
    by (unfold Qlt, inject_Z; cbn [Qnum Qden]; lia).
  assert (H100 : (0 <= 100)%Q) by (unfold Qle; cbn; lia).
  split.
  - change (inject_Z 0) with (0 * 100)%Q.
    apply Qmult_le_compat_r; [|exact H100].
    apply Qle_shift_div_l; [exact Hlen|].
    rewrite Qmult_0_l. change 0%Q with (inject_Z 0). rewrite <- Zle_Qle. lia.
  - change (inject_Z 100) with (1 * 100)%Q.
    apply Qmult_le_compat_r; [|exact H100].
    apply Qle_shift_div_r; [exact Hlen|].
    rewrite Qmult_1_l. rewrite <- Zle_Qle. lia.
Qed.

(** ** Stable sorting *)

Lemma insert_desc_perm {A} (lt : A -> A -> bool) (x : A) (l : list A) :
  Permutation (insert_desc lt x l) (x :: l).
Proof.
  induction l as [|y l IH]; cbn [insert_desc]; [reflexivity|].
  destruct (lt x y); [|reflexivity].
  rewrite IH. apply perm_swap.
Qed.

Lemma sort_desc_perm {A} (lt : A -> A -> bool) (l : list A) :
  Permutation (sort_desc lt l) l.
Proof.
  induction l as [|x l IH]; cbn [sort_desc fold_right]; [reflexivity|].
  fold (sort_desc lt l). rewrite insert_desc_perm. now constructor.
Qed.

(** ** Counting tokens *)

Lemma counter_add_total (w : pystr) (c : list (pystr * nat)) :
  total (counter_add w c) = S (total c).
Proof.
  induction c as [|[k n] c IH]; cbn [counter_add]; [reflexivity|].
  case_bool_decide; cbn [total snd] in *; lia.
Qed.

Lemma counter_add_keys (w : pystr) (c : list (pystr * nat)) :
  (In w (c.*1) /\ (counter_add w c).*1 = c.*1) \/
  (~ In w (c.*1) /\ (counter_add w c).*1 = c.*1 ++ [w]).
Proof.
  induction c as [|[k n] c IH]; cbn [counter_add].
  - right. split; [intros [] | reflexivity].
  - case_bool_decide as Hk.
    + left. subst k. split; [now left | reflexivity].
    + destruct IH as [[Hin Heq] | [Hnin Heq]].
      * left. split; [now right | cbn; now rewrite Heq].
      * right. split; [|cbn; now rewrite Heq].
        intros [Heq' | Hin]; [now apply Hk | now apply Hnin].
Qed.

Lemma counter_add_NoDup (w : pystr) (c : list (pystr * nat)) :
  NoDup c.*1 -> NoDup (counter_add w c).*1.
Proof.
  intros Hc. destruct (counter_add_keys w c) as [[_ ->] | [Hnin ->]]; [exact Hc|].
  apply NoDup_app. split; [exact Hc|]. split; [|apply NoDup_singleton].
  intros x Hx Hw. apply list_elem_of_singleton in Hw. subst x.
  now apply Hnin, list_elem_of_In.
Qed.

Lemma counter_add_subset (w : pystr) (c : list (pystr * nat)) (k : pystr) :
  k ∈ (counter_add w c).*1 -> k ∈ c.*1 \/ k = w.
Proof.
  destruct (counter_add_keys w c) as [[_ ->] | [_ ->]]; [now left|].
  rewrite elem_of_app, list_elem_of_singleton. tauto.
Qed.

Lemma Counter_invariant (l : list pystr) (c : list (pystr * nat)) :
  NoDup c.*1 ->
  let c' := fold_left (fun c w => counter_add w c) l c in
  NoDup c'.*1 /\ (forall k, k ∈ c'.*1 -> k ∈ c.*1 \/ k ∈ l) /\
  total c' = (total c + length l)%nat.
Proof.
  revert c. induction l as [|w l IH]; intros c Hc; cbn [fold_left].
  - split; [exact Hc|]. split; [now left | cbn; lia].
  - destruct (IH (counter_add w c) (counter_add_NoDup w c Hc)) as (Hnd & Hsub & Htot).
    split; [exact Hnd|]. split.
    + intros k Hk. destruct (Hsub k Hk) as [Hk' | Hk']; [|right; now right].
      destruct (counter_add_subset w c k Hk') as [? | ->]; [now left | right; left].
    + rewrite Htot, counter_add_total. cbn [length]. lia.
Qed.

(** A counter has one entry per distinct token, at most. *)
Lemma Counter_length (l : list pystr) :
  (length (Counter l) <= size (list_to_set l : gset pystr))%nat.
Proof.
  destruct (Counter_invariant l [] (NoDup_nil_2)) as (Hnd & Hsub & _).
  fold (Counter l) in Hnd, Hsub.
  rewrite <- (length_fmap fst (Counter l)).
  rewrite <- (size_list_to_set (C := gset pystr) _ Hnd).
  apply subseteq_size. intros k Hk.
  apply elem_of_list_to_set in Hk. apply elem_of_list_to_set.
  destruct (Hsub k Hk) as [Hk' | Hk']; [|exact Hk'].
  cbn in Hk'. now apply elem_of_nil in Hk'.
Qed.

Lemma total_bounds_entry (c : list (pystr * nat)) (kn : pystr * nat) :
  In kn c -> (snd kn <= total c)%nat.
Proof.
  induction c as [|x c IH]; intros Hin; [destruct Hin|].
  destruct Hin as [-> | Hin]; cbn [total]; [lia|].
  apply IH in Hin. lia.
Qed.

(** No count of a counter exceeds the number of tokens counted. *)
Lemma Counter_entry_bound (l : list pystr) (kn : pystr * nat) :
  In kn (Counter l) -> (snd kn <= length l)%nat.
Proof.
  intros Hin. apply total_bounds_entry in Hin.
  destruct (Counter_invariant l [] (NoDup_nil_2)) as (_ & _ & Htot).
  fold (Counter l) in Htot. cbn in Htot. lia.
Qed.

Lemma most_common_incl (n : nat) (c : list (pystr * nat)) (kn : pystr * nat) :
  In kn (most_common n c) -> In kn c.
Proof.
  unfold most_common. intros Hin.
  apply list_elem_of_In, subseteq_take, list_elem_of_In in Hin.
  apply (Permutation_in _ (sort_desc_perm _ c)) in Hin. exact Hin.
Qed.

Lemma most_common_length (n : nat) (c : list (pystr * nat)) :
  (length (most_common n c) <= n)%nat /\
  (length (most_common n c) <= length c)%nat.
Proof.
  unfold most_common. rewrite length_take.
  rewrite (Permutation_length (sort_desc_perm _ c)). lia.
Qed.

(** ** Keywords and summary *)

Section Keywords.
Context {U : UnicodeDb}.

(** The division of the relevance is reached only when a token was retained. *)
Lemma extract_keywords_value (text : pystr) (top_n : nat) :
  extract_keywords text top_n =
  Ok (List.map (entry_of (length (retained_tokens text)))
               (most_common top_n (Counter (retained_tokens text)))).
Proof.
  unfold extract_keywords.
  destruct (retained_tokens text) as [|k0 keywords'] eqn:Hk.
  - unfold most_common, Counter. cbn. now destruct top_n.
  - apply map_result_ok. intros wc _. reflexivity.
Qed.

(** C5: keyword extraction returns a sequence of at most [top_n] entries and
    at most as many entries as there are distinct retained tokens; the
    relevance of every entry is between 0 and 100; with no retained token the
    sequence is empty, and no division by zero is raised. *)
Theorem keywords_bounded (text : pystr) (top_n : nat) :
  exists kws,
    extract_keywords text top_n = Ok kws /\
    (length kws <= top_n)%nat /\
    (length kws <= size (list_to_set (retained_tokens text) : gset pystr))%nat /\
    Forall (fun k => (0 <= relevance k)%Q /\ (relevance k <= 100)%Q) kws /\
    (retained_tokens text = [] -> kws = []).
Proof.
  eexists. split; [apply extract_keywords_value|].
  set (keywords := retained_tokens text).
  destruct (most_common_length top_n (Counter keywords)) as [H1 H2].
  rewrite length_map. split; [exact H1|]. split.
  { etransitivity; [exact H2 | apply Counter_length]. }
  split.
  - apply Forall_forall. intros k Hin.
    apply list_elem_of_In, in_map_iff in Hin. destruct Hin as (wc & <- & Hwc).
    apply most_common_incl in Hwc.
    pose proof (Counter_entry_bound keywords wc Hwc) as Hle.
    cbn [entry_of relevance].
    destruct (length keywords) as [|len] eqn:Hlen.
    + apply length_zero_iff_nil in Hlen. rewrite Hlen in Hwc. destruct Hwc.
    + apply (py_round_bounds _ 2 0 100); now apply percentage_bounds.
  - intros Hnil. subst keywords. rewrite Hnil.
    unfold most_common, Counter. cbn. now destruct top_n.
Qed.

End Keywords.

(** C4: when the number of retained sentences (the segments between runs of
    [.], [!], [?] whose trimmed length exceeds 20) is at most the maximum, the
    summary is all of them, trimmed and in their original order, joined by
    [". "], with one period appended; no sentence is scored or dropped. *)
Theorem summary_of_few_sentences (text : pystr) (max_sentences : nat) :
  (length (retained_sentences text) <= max_sentences)%nat ->
  generate_summary text max_sentences =
    Ok (str_join (py ". ") (retained_sentences text) ++ py ".") /\
  retained_sentences text =
    List.map str_strip
      (List.filter (fun s => (20 <? length (str_strip s))%nat)
                   (re_split_runs is_sentence_end text)).
Proof.
  intros Hle. split; [|reflexivity].
  unfold generate_summary.
  destruct (Nat.leb_spec (length (retained_sentences text)) max_sentences);
    [reflexivity | lia].
Qed.

Lemma summary_of_few_sentences_witness :
  generate_summary
    (py "The parser reads the whole document! Short one. Then it reports what it has found?") 5 =
    Ok (py "The parser reads the whole document. Then it reports what it has found.").
Proof.
  apply (summary_of_few_sentences
           (py "The parser reads the whole document! Short one. Then it reports what it has found?") 5).
  vm_compute. lia.
Defined.

(** ** Links *)

(** C6: on ["Visit http://example.com and http://example.com again"] link
    extraction returns exactly one entry, with count 2, domain
    ["example.com"] and scheme ["http"]. *)
Theorem links_of_repeated_url :
  extract_links (py "Visit http://example.com and http://example.com again") =
  Ok [ {| url := py "http://example.com";
          domain := py "example.com";
          scheme := py "http";
          count := 2 |} ].
Proof. vm_compute. reflexivity. Qed.

(** ** Language *)

Section Language.
Context {U : UnicodeDb}.

Lemma language_code_inj (l l' : language) :
  language_code l = language_code l' -> l = l'.
Proof. destruct l, l'; intros H; first [reflexivity | discriminate H]. Qed.

Lemma language_code_known (l : language) : language_code l <> py "unknown".
Proof. destruct l; discriminate. Qed.

(** The result of the heuristic in terms of the four overlaps. *)
Lemma detect_language_overlaps (text : pystr) :
  detect_language text =
  let o := overlap text in
  let max_count :=
    Nat.max (Nat.max (Nat.max (o English) (o Spanish)) (o French)) (o German) in
  if (max_count =? 0)%nat then py "unknown"
  else if (max_count =? o English)%nat then language_code English
  else if (max_count =? o Spanish)%nat then language_code Spanish
  else if (max_count =? o French)%nat then language_code French
  else if (max_count =? o German)%nat then language_code German
  else py "unknown".
Proof. reflexivity. Qed.

(** C7: the heuristic counts, for each of the four 8-word sets, the distinct
    whitespace-split words of the lowercased text that are in the set
    ([overlap]); it returns ['unknown'] exactly when every count is zero, and
    otherwise the language whose count is positive and largest, the first
    one in the order English, Spanish, French, German among those that tie. *)
Theorem language_heuristic (text : pystr) :
  (forall l, size (language_words l) = 8%nat) /\
  (detect_language text = py "unknown" <-> forall l, overlap text l = 0%nat) /\
  (forall l,
      detect_language text = language_code l <->
      (0 < overlap text l)%nat /\
      (forall l', overlap text l' <= overlap text l)%nat /\
      (forall l', overlap text l' = overlap text l -> priority l <= priority l')%nat).
Proof.
  split; [intros []; vm_compute; reflexivity|].
  rewrite detect_language_overlaps. cbv zeta.
  generalize (overlap text). intros o.
  set (m := Nat.max (Nat.max (Nat.max (o English) (o Spanish)) (o French)) (o German)).
  assert (Hm : forall l, (o l <= m)%nat) by (intros []; subst m; lia).
  split.
  - destruct (Nat.eqb_spec m 0) as [H0 | H0].
    + split; [intros _ l; specialize (Hm l); lia | reflexivity].
    + split.
      * intros H. exfalso.
        repeat (match type of H with
                | (if (?a =? ?b)%nat then _ else _) = _ =>
                    destruct (Nat.eqb_spec a b)
                end; try (now apply language_code_known in H)).
        subst m. lia.
      * intros H. exfalso. apply H0. subst m.
        rewrite (H English), (H Spanish), (H French), (H German). reflexivity.
  - intros l.
    destruct (Nat.eqb_spec m 0) as [H0 | H0].
    { split.
      - intros H. symmetry in H. now apply language_code_known in H.
      - intros (Hpos & _). specialize (Hm l). lia. }
    split.
    + intros H.
      repeat (match type of H with
              | (if (?a =? ?b)%nat then _ else _) = _ =>
                  destruct (Nat.eqb_spec a b)
              end;
              [ apply language_code_inj in H; subst l;
                repeat split;
                [ lia
                | intros l'; specialize (Hm l'); lia
                | intros l' Hl'; destruct l'; cbn [priority]; lia ]
              | ]).
      symmetry in H. now apply language_code_known in H.
    + intros (Hpos & Hmax & Hfirst).
      assert (Hl : o l = m).
      { pose proof (Hmax English). pose proof (Hmax Spanish).
        pose proof (Hmax French). pose proof (Hmax German).
        subst m. destruct l; lia. }
      pose proof (Hfirst English) as HE. pose proof (Hfirst Spanish) as HS.
      pose proof (Hfirst French) as HF. pose proof (Hfirst German) as HG.
      repeat (match goal with
              | |- (if (?a =? ?b)%nat then _ else _) = _ =>
                  destruct (Nat.eqb_spec a b)
              end;
              [ destruct l; cbn [priority] in *; first [reflexivity | exfalso; lia] | ]).
      exfalso. destruct l; lia.
Qed.

End Language.

(** ** Words of a trimmed line *)

Lemma fields_nonempty (d : char -> bool) (s : pystr) : fields d s <> [].
Proof.
  destruct s as [|c s]; cbn [fields]; [discriminate|].
  destruct (d c); [discriminate|].
  destruct (fields d s); discriminate.
Qed.

Lemma fields_app_delims (d : char -> bool) (s r : pystr) :
  forallb d r = true ->
  fields d (s ++ r) = fields d s ++ List.map (fun _ => []) r.
Proof.
  intros Hr. induction s as [|c s IH]; cbn [app fields].
  - induction r as [|x r IHr]; [reflexivity|].
    cbn [forallb] in Hr. apply andb_prop in Hr as [Hx Hr].
    cbn [fields List.map]. rewrite Hx. rewrite (IHr Hr). reflexivity.
  - rewrite IH. destruct (d c); [reflexivity|].
    pose proof (fields_nonempty d s) as Hne.
    destruct (fields d s); [contradiction | reflexivity].
Qed.

Lemma split_app_spaces (s r : pystr) :
  forallb isspace r = true -> str_split (s ++ r) = str_split s.
Proof.
  intros Hr. unfold str_split. rewrite (fields_app_delims isspace s r Hr).
  rewrite List.filter_app.
  replace (List.filter nonempty (List.map (fun _ => []) r)) with (@nil (list N)).
  - apply app_nil_r.
  - clear Hr. induction r; [reflexivity | exact IHr].
Qed.

Lemma split_spaces_app (l s : pystr) :
  forallb isspace l = true -> str_split (l ++ s) = str_split s.
Proof.
  intros Hl. induction l as [|c l IH]; [reflexivity|].
  cbn [forallb] in Hl. apply andb_prop in Hl as [Hc Hl].
  unfold str_split in *. cbn [app fields]. rewrite Hc. exact (IH Hl).
Qed.

Lemma lstrip_decompose (s : pystr) :
  exists l, forallb isspace l = true /\ s = l ++ str_lstrip s.
Proof.
  induction s as [|c s (l & Hl & Hs)]; [now exists []|].
  cbn [str_lstrip]. destruct (isspace c) eqn:Hc.
  - exists (c :: l). cbn [forallb app]. rewrite Hc, Hl. now rewrite <- Hs.
  - now exists [].
Qed.

Lemma rstrip_decompose (s : pystr) :
  exists r, forallb isspace r = true /\ s = str_rstrip s ++ r.
Proof.
  destruct (lstrip_decompose (rev s)) as (l & Hl & Hs).
  exists (rev l). split; [now apply forallb_isspace_rev|].
  unfold str_rstrip. rewrite <- rev_app_distr, <- Hs. symmetry. apply rev_involutive.
Qed.

(** Trimming a line does not change its words. *)
Lemma split_strip (s : pystr) : str_split (str_strip s) = str_split s.
Proof.
  unfold str_strip.
  destruct (lstrip_decompose s) as (l & Hl & Hs).
  destruct (rstrip_decompose (str_lstrip s)) as (r & Hr & Hs').
  rewrite Hs at 2. rewrite (split_spaces_app l _ Hl).
  rewrite Hs' at 2. now rewrite (split_app_spaces _ r Hr).
Qed.

(** ** Headings *)

Lemma combine_seq_In {A} (l : list A) (k i : nat) (x : A) :
  In (i, x) (combine (seq k (length l)) l) <->
  (k <= i)%nat /\ l !! (i - k)%nat = Some x.
Proof.
  revert k. induction l as [|y l IH]; intros k; cbn [length seq combine In].
  - split; [intros [] | intros [_ H]; discriminate H].
  - rewrite IH. split.
    + intros [Heq | [Hle Hl]].
      * injection Heq as -> ->. split; [lia|]. now rewrite Nat.sub_diag.
      * split; [lia|]. replace (i - k)%nat with (S (i - S k)) by lia. exact Hl.
    + intros [Hle Hl].
      destruct (i - k)%nat as [|j] eqn:Hj.
      * left. cbn in Hl. injection Hl as ->. f_equal. lia.
      * right. split; [lia|]. replace (i - S k)%nat with j by lia. exact Hl.
Qed.

Lemma enumerate_In {A} (l : list A) (i : nat) (x : A) :
  In (i, x) (enumerate l) <-> l !! i = Some x.
Proof.
  unfold enumerate. rewrite combine_seq_In, Nat.sub_0_r.
  split; [now intros [_ H] | intros H; split; [lia | exact H]].
Qed.

Section Structure.
Context {U : UnicodeDb}.

(** C8: a heading is reported for the line at index [h_position h] exactly
    when that line has more than 3 and at most 10 words and the line right
    after it exists and has more than 10 words; its text is the trimmed
    line, and its level is 1 when that text is upper-case, otherwise 2 when
    the line has at most 5 words, otherwise 3. *)
Theorem heading_detection (text : pystr) (h : heading) :
  In h (headings (analyze_structure text)) <->
  exists line next,
    str_split_sep [LF] text !! h_position h = Some line /\
    str_split_sep [LF] text !! S (h_position h) = Some next /\
    (3 < length (str_split line) <= 10)%nat /\
    (10 < length (str_split next))%nat /\
    h_text h = str_strip line /\
    h_level h =
      (if str_isupper (str_strip line) then 1
       else if (length (str_split line) <=? 5)%nat then 2 else 3)%nat.
Proof.
  unfold analyze_structure. cbn [headings]. unfold potential_headings.
  set (lines := str_split_sep [LF] text).
  rewrite in_flat_map. split.
  - intros [[i line] [Hin Hh]]. apply enumerate_In in Hin.
    cbn [fst snd] in Hh. rewrite split_strip in Hh.
    destruct ((3 <? length (str_split line))%nat && (length (str_split line) <=? 10)%nat)
      eqn:Hw; [|destruct Hh].
    apply andb_prop in Hw as [Hw1 Hw2].
    apply Nat.ltb_lt in Hw1. apply Nat.leb_le in Hw2.
    rewrite Nat.add_1_r in Hh.
    destruct (lines !! S i) as [next|] eqn:Hnext; [|destruct Hh].
    rewrite split_strip in Hh.
    destruct (Nat.ltb_spec 10 (length (str_split next))) as [Hn | Hn]; [|destruct Hh].
    destruct Hh as [<- | []]. cbn [h_position h_text h_level].
    exists line, next. unfold guess_heading_level. rewrite split_strip.
    repeat split; assumption.
  - intros (line & next & Hline & Hnext & [Hw1 Hw2] & Hn & Ht & Hlv).
    exists (h_position h, line). split; [now apply enumerate_In|].
    cbn [fst snd]. rewrite split_strip.
    apply Nat.ltb_lt in Hw1. apply Nat.leb_le in Hw2. rewrite Hw1, Hw2. cbn [andb].
    rewrite Nat.add_1_r, Hnext, split_strip.
    apply Nat.ltb_lt in Hn. rewrite Hn. left.
    destruct h as [t p lv]. cbn [h_position h_text h_level] in *.
    subst t lv. unfold guess_heading_level. now rewrite split_strip.
Qed.

End Structure.

(** ** The pipeline *)

Lemma map_result_outcomes {A B} (f : A -> result B) (e : exn) (l : list A) :
  (forall a, (exists b, f a = Ok b) \/ f a = Raise e) ->
  (exists bs, map_result f l = Ok bs) \/ map_result f l = Raise e.
Proof.
  intros Hf. induction l as [|a l IH]; cbn [map_result]; [left; now eexists|].
  destruct (Hf a) as [[b ->] | ->]; cbn [bind]; [|now right].
  destruct IH as [[bs ->] | ->]; cbn [bind]; [left; now eexists | now right].
Qed.

(** The only exception of [urlparse] is the one for an unbalanced bracket. *)
Lemma urlparse_outcomes (u : pystr) :
  (exists p, urlparse u = Ok p) \/ urlparse u = Raise ValueError.
Proof.
  unfold urlparse.
  repeat match goal with
         | |- context [if ?b then _ else _] => destruct b
         end; first [left; now eexists | now right].
Qed.

Lemma extract_links_outcomes (text : pystr) :
  (exists ls, extract_links text = Ok ls) \/ extract_links text = Raise ValueError.
Proof.
  unfold extract_links. apply map_result_outcomes. intros u.
  destruct (urlparse_outcomes u) as [[p ->] | ->]; cbn [bind];
    [left; now eexists | now right].
Qed.

(** The divisions of the scores are by the number of retained sentences,
    which exceeds [max_sentences] when they are reached. *)
Lemma generate_summary_returns (text : pystr) (max_sentences : nat) :
  exists s, generate_summary text max_sentences = Ok s.
Proof.
  unfold generate_summary.
  destruct (Nat.leb_spec (length (retained_sentences text)) max_sentences) as [Hle | Hlt];
    [now eexists|].
  destruct (length (retained_sentences text)) as [|len] eqn:Hlen; [lia|].
  erewrite map_result_ok; [cbn [bind]; now eexists|].
  intros p _. cbn [py_div bind]. reflexivity.
Qed.

Section Pipeline.
Context {U : UnicodeDb}.

(** The pipeline returns, unless link extraction is on and [urlparse]
    rejects a URL that the pattern matched. *)
Lemma analyze_document_outcomes (text : pystr) (opts : options) :
  (exists r, analyze_document text opts = Ok r) \/
  (opt_extractLinks opts = true /\ analyze_document text opts = Raise ValueError).
Proof.
  destruct (calculate_statistics_returns text) as [st [Hst _]].
  destruct (generate_summary_returns text 5) as [su Hsu].
  pose proof (extract_keywords_value text 20) as Hkw.
  unfold analyze_document, when. rewrite Hst, Hkw, Hsu.
  destruct (extract_links_outcomes text) as [[li ->] | ->];
    destruct opts as [[] [] [] [] []]; cbn;
    first [left; now eexists | right; split; reflexivity].
Qed.

(** C2, as the code has it: with link extraction off the pipeline returns a
    report for every text. A text without retained tokens has no keywords.
    The summary of a text without retained sentences, the empty text among
    them, is the one-character string ["."], the period that ends every
    summary. *)
Theorem pipeline_without_links_returns (text : pystr) (opts : options) :
  opt_extractLinks opts = false ->
  (exists r, analyze_document text opts = Ok r) /\
  (retained_tokens text = [] -> extract_keywords text 20 = Ok []) /\
  (retained_sentences text = [] -> generate_summary text 5 = Ok (py ".")) /\
  generate_summary [] 5 = Ok (py ".").
Proof.
  intros Hoff. split.
  { destruct (analyze_document_outcomes text opts) as [Hok | [Hon _]];
      [exact Hok | congruence]. }
  split.
  { intros Hnil. rewrite extract_keywords_value, Hnil. reflexivity. }
  split; [|reflexivity].
  intros Hnil. unfold generate_summary. rewrite Hnil. reflexivity.
Qed.

End Pipeline.

Lemma pipeline_without_links_returns_witness :
  (exists r, @analyze_document ascii_db (py "To be, or not to be.") default_options = Ok r) /\
  (@retained_tokens ascii_db (py "To be, or not to be.") = [] ->
   @extract_keywords ascii_db (py "To be, or not to be.") 20 = Ok []) /\
  (retained_sentences (py "To be, or not to be.") = [] ->
   generate_summary (py "To be, or not to be.") 5 = Ok (py ".")) /\
  generate_summary [] 5 = Ok (py ".").
Proof.
  apply (@pipeline_without_links_returns ascii_db (py "To be, or not to be.")
           default_options).
  reflexivity.
Defined.

Example degenerate_text_results :
  @retained_tokens ascii_db (py "To be, or not to be.") = [] /\
  retained_sentences (py "To be, or not to be.") = [] /\
  @extract_keywords ascii_db (py "To be, or not to be.") 20 = Ok [] /\
  generate_summary (py "To be, or not to be.") 5 = Ok (py ".").
Proof. vm_compute. repeat split. Qed.

(** C2 fails as stated: the summary of the empty string is not empty, and
    with link extraction on the pipeline raises on ["http://["]. *)
Lemma summary_of_empty_text_is_a_period :
  generate_summary [] 5 = Ok (py ".") /\
  py "." <> [] /\
  @analyze_document ascii_db (py "http://[") all_options = Raise ValueError.
Proof.
  split; [reflexivity|]. split; [discriminate|]. vm_compute. reflexivity.
Qed.

(** ** Tables *)

(** C3 fails on the code: a text run without its [content] raises
    [KeyError], where every other missing key is read as empty. *)
Theorem text_run_without_content_raises :
  extract_tables (document_of [[cell_of [PDict [(py "textRun", PDict [])]]]]) =
  Raise (KeyError (py "content")).
Proof. vm_compute. reflexivity. Qed.

(** The other missing keys of C3 are read as empty. *)
Example missing_keys_are_empty :
  extract_tables (PDict []) = Ok [] /\
  extract_tables (PDict [(py "body", PDict [])]) = Ok [] /\
  extract_tables
    (PDict [(py "body", PDict [(py "content", PList [PDict [(py "table", PDict [])]])])]) =
    Ok [ {| rows := 0; columns := 0; data := [] |} ] /\
  extract_tables
    (PDict [(py "body",
       PDict [(py "content",
         PList [PDict [(py "table", PDict [(py "tableRows", PList [PDict []])])]])])]) =
    Ok [ {| rows := 1; columns := 0; data := [[]] |} ] /\
  extract_tables
    (document_of [[ PDict [];
                    PDict [(py "content", PList [PDict []])];
                    PDict [(py "content", PList [PDict [(py "paragraph", PDict [])]])];
                    cell_of [PDict []] ]]) =
    Ok [ {| rows := 1; columns := 4; data := [[ []; []; []; [] ]] |} ].
Proof. vm_compute. repeat split. Qed.

(** * Further properties of the analyzer *)

(** ** Statistics: how the counts relate *)

(** The value of the calculator, with the averages before rounding. *)
Lemma calculate_statistics_value (text : pystr) :
  let clean_text := str_strip text in
  let words := str_split clean_text in
  let sentence_count :=
    length (List.filter (fun s => nonempty (str_strip s))
                        (re_split_runs is_sentence_end clean_text)) in
  calculate_statistics text =
  Ok {| characterCount := length clean_text;
        characterCountNoSpaces :=
          length (str_replace [LF] [] (str_replace [SPACE] [] clean_text));
        wordCount := length words;
        lineCount := length (str_split_sep [LF] clean_text);
        paragraphCount :=
          length (List.filter (fun p => nonempty (str_strip p))
                              (str_split_sep [LF; LF] clean_text));
        sentenceCount := sentence_count;
        averageWordLength :=
          py_round (if (0 <? length words)%nat
                    then inject_Z (Z.of_nat (sum_lengths words)) /
                         inject_Z (Z.of_nat (length words))
                    else 0)%Q 2;
        averageSentenceLength :=
          py_round (if (0 <? sentence_count)%nat
                    then inject_Z (Z.of_nat (length words)) /
                         inject_Z (Z.of_nat sentence_count)
                    else 0)%Q 2;
        readingTime :=
          py_round (inject_Z (Z.of_nat (length words)) / inject_Z 200)%Q 1 |}.
Proof.
  cbv zeta. unfold calculate_statistics.
  destruct (length (str_split (str_strip text))) as [|wc];
    destruct (length (List.filter _ (re_split_runs is_sentence_end (str_strip text))))
      as [|sc]; reflexivity.
Qed.

Lemma replace_single_char (c : char) (s : pystr) :
  str_replace [c] [] s = List.filter (fun x => negb (c =? x)) s.
Proof.
  unfold str_replace. induction s as [|x s IH]; [reflexivity|].
  cbn [replace_aux startswith List.filter length Nat.sub app].
  rewrite andb_true_r. destruct (c =? x); cbn [negb]; now rewrite IH.
Qed.

Lemma filter_length_le {A} (p : A -> bool) (l : list A) :
  (length (List.filter p l) <= length l)%nat.
Proof.
  induction l as [|x l IH]; [reflexivity|].
  cbn [List.filter]. destruct (p x); cbn [length]; lia.
Qed.

Lemma filter_twice {A} (p q : A -> bool) (l : list A) :
  List.filter p (List.filter q l) = List.filter (fun x => p x && q x) l.
Proof.
  induction l as [|x l IH]; [reflexivity|].
  cbn [List.filter]. destruct (q x); cbn [List.filter].
  - rewrite andb_true_r. now rewrite IH.
  - rewrite andb_false_r. exact IH.
Qed.

Lemma filter_length_mono {A} (p q : A -> bool) (l : list A) :
  (forall x, p x = true -> q x = true) ->
  (length (List.filter p l) <= length (List.filter q l))%nat.
Proof.
  intros Hpq. induction l as [|x l IH]; [reflexivity|].
  cbn [List.filter]. destruct (p x) eqn:Hp.
  - rewrite (Hpq x Hp). cbn [length]. lia.
  - destruct (q x); cbn [length]; lia.
Qed.

Lemma sum_lengths_cons (w : pystr) (l : list pystr) :
  sum_lengths (w :: l) = (length w + sum_lengths l)%nat.
Proof. reflexivity. Qed.

(** The characters of the fields are the characters that are no delimiter. *)
Lemma fields_sum_lengths (d : char -> bool) (s : pystr) :
  sum_lengths (fields d s) = length (List.filter (fun c => negb (d c)) s).
Proof.
  induction s as [|c s IH]; [reflexivity|].
  cbn [fields List.filter]. destruct (d c); cbn [negb].
  - exact IH.
  - pose proof (fields_nonempty d s) as Hne.
    destruct (fields d s) as [|f fs]; [contradiction|].
    cbn [cons_head]. rewrite sum_lengths_cons in *. cbn [length]. lia.
Qed.

Lemma sum_lengths_nonempty (l : list pystr) :
  sum_lengths (List.filter nonempty l) = sum_lengths l /\
  (length (List.filter nonempty l) <= sum_lengths l)%nat.
Proof.
  induction l as [|w l [IH1 IH2]]; [split; reflexivity|].
  cbn [List.filter]. destruct w as [|c w]; cbn [nonempty].
  - split; [exact IH1 | exact IH2].
  - rewrite !sum_lengths_cons. cbn [length]. split; lia.
Qed.

Lemma isspace_space_or_newline (c : char) :
  negb (isspace c) = true -> negb (LF =? c) && negb (SPACE =? c) = true.
Proof.
  unfold isspace, LF, SPACE.
  destruct (N.eqb_spec 10 c) as [<- | _]; [discriminate|].
  destruct (N.eqb_spec 32 c) as [<- | _]; [discriminate | reflexivity].
Qed.

(** X1: the calculator always returns, and the number of words is at most
    the number of characters that are neither a space nor a line feed,
    which is at most the number of characters of the trimmed text. *)
Theorem statistics_counts_ordered (text : pystr) :
  exists st,
    calculate_statistics text = Ok st /\
    (wordCount st <= characterCountNoSpaces st)%nat /\
    (characterCountNoSpaces st <= characterCount st)%nat /\
    characterCount st = length (str_strip text).
Proof.
  eexists. split; [apply calculate_statistics_value|].
  cbn [wordCount characterCountNoSpaces characterCount].
  rewrite !replace_single_char.
  set (clean := str_strip text).
  split; [|split; [|reflexivity]].
  - unfold str_split.
    destruct (sum_lengths_nonempty (fields isspace clean)) as [_ Hle].
    rewrite fields_sum_lengths in Hle.
    etransitivity; [exact Hle|].
    rewrite filter_twice.
    apply filter_length_mono. intros c Hc. now apply isspace_space_or_newline.
  - etransitivity; apply filter_length_le.
Qed.

Lemma cons_head_length (c : char) (l : list pystr) :
  length (cons_head c l) = Nat.max 1 (length l).
Proof. destruct l; reflexivity. Qed.

Lemma split_blocks_length (skip : nat) (s : pystr) :
  (length (split_sep_aux [LF; LF] skip s) <=
   S (length (List.filter (N.eqb LF) s)))%nat.
Proof.
  revert skip. induction s as [|c s IH]; intros skip; [cbn; lia|].
  cbn [split_sep_aux List.filter].
  assert (Hmono : (length (List.filter (N.eqb LF) s) <=
                   length (if (LF =? c)%N then c :: List.filter (N.eqb LF) s
                           else List.filter (N.eqb LF) s))%nat)
    by (destruct (LF =? c)%N; cbn [length]; lia).
  destruct skip as [|k].
  - destruct (startswith [LF; LF] (c :: s)) eqn:Hs.
    + cbn [startswith] in Hs. apply andb_prop in Hs as [Hc _]. rewrite Hc.
      cbn [length Nat.sub]. specialize (IH 1%nat). lia.
    + rewrite cons_head_length. specialize (IH 0%nat). lia.
  - specialize (IH k). lia.
Qed.

(** X2: a text has at least one line, and never more paragraphs than
    lines. *)
Theorem paragraphs_at_most_lines (text : pystr) :
  exists st,
    calculate_statistics text = Ok st /\
    (1 <= lineCount st)%nat /\
    (paragraphCount st <= lineCount st)%nat.
Proof.
  eexists. split; [apply calculate_statistics_value|].
  cbn [lineCount paragraphCount]. unfold str_split_sep.
  rewrite split_lines_length. split; [lia|].
  etransitivity; [apply filter_length_le | apply split_blocks_length].
Qed.

Lemma strip_all_space (s : pystr) :
  forallb isspace s = true -> str_strip s = [].
Proof.
  intros Hs. unfold str_strip. now rewrite (lstrip_all_space s Hs).
Qed.

(** X3: a text of whitespace only has the statistics of the empty text:
    every value is 0, except the line count, which is 1. *)
Theorem statistics_of_blank_text (text : pystr) :
  forallb isspace text = true ->
  calculate_statistics text =
  Ok {| characterCount := 0; characterCountNoSpaces := 0; wordCount := 0;
        lineCount := 1; paragraphCount := 0; sentenceCount := 0;
        averageWordLength := 0; averageSentenceLength := 0;
        readingTime := 0 |}.
Proof.
  intros Hs. unfold calculate_statistics.
  rewrite (strip_all_space text Hs). vm_compute. reflexivity.
Qed.

Lemma statistics_of_blank_text_witness :
  calculate_statistics [SPACE; LF; 9; LF; 160] =
  Ok {| characterCount := 0; characterCountNoSpaces := 0; wordCount := 0;
        lineCount := 1; paragraphCount := 0; sentenceCount := 0;
        averageWordLength := 0; averageSentenceLength := 0;
        readingTime := 0 |}.
Proof. apply (statistics_of_blank_text [SPACE; LF; 9; LF; 160]). reflexivity. Defined.

(** X4: when the text has a word, the average word length is at least 1;
    when it has none, both averages and the reading time are 0. *)
Theorem average_word_length_at_least_one (text : pystr) :
  exists st,
    calculate_statistics text = Ok st /\
    ((0 < wordCount st)%nat -> (1 <= averageWordLength st)%Q) /\
    (wordCount st = 0%nat ->
     averageWordLength st = 0%Q /\ averageSentenceLength st = 0%Q /\
     readingTime st = 0%Q).
Proof.
  eexists. split; [apply calculate_statistics_value|].
  cbn [wordCount averageWordLength averageSentenceLength readingTime].
  set (words := str_split (str_strip text)).
  split.
  - intros Hpos. destruct (length words) as [|wc] eqn:Hwc; [lia|].
    change ((0 <? S wc)%nat) with true. cbv iota.
    destruct (sum_lengths_nonempty (fields isspace (str_strip text))) as [_ Hle].
    fold (str_split (str_strip text)) in Hle. fold words in Hle.
    assert (Hsum : sum_lengths words = sum_lengths (fields isspace (str_strip text)))
      by (unfold words, str_split; apply sum_lengths_nonempty).
    rewrite <- Hsum in Hle. rewrite Hwc in Hle.
    assert (Hq : (0 < inject_Z (Z.of_nat (S wc)))%Q)
      by (unfold Qlt, inject_Z; cbn [Qnum Qden]; lia).
    refine (proj1 (py_round_bounds _ 2 1 (Z.of_nat (sum_lengths words)) _ _)).
    + apply Qle_shift_div_l; [exact Hq|]. rewrite Qmult_1_l.
      rewrite <- Zle_Qle. lia.
    + apply Qle_shift_div_r; [exact Hq|]. rewrite <- inject_Z_mult.
      rewrite <- Zle_Qle. nia.
  - intros Hzero. rewrite Hzero.
    destruct (length (List.filter _ _)); vm_compute; repeat split.
Qed.

(** ** Keywords: order, frequencies and number *)

Lemma counter_get_add (k w : pystr) (c : list (pystr * nat)) :
  counter_get k (counter_add w c) =
  (counter_get k c + (if bool_decide (w = k) then 1 else 0))%nat.
Proof.
  induction c as [|[k' n] c IH]; cbn [counter_add counter_get].
  - lia.
  - destruct (bool_decide_reflect (k' = w)) as [-> | Hne]; cbn [counter_get].
    + destruct (bool_decide (w = k)); lia.
    + rewrite IH. lia.
Qed.

Lemma counter_get_fold (k : pystr) (l : list pystr) (c : list (pystr * nat)) :
  counter_get k (fold_left (fun c w => counter_add w c) l c) =
  (counter_get k c + occurrences k l)%nat.
Proof.
  revert c. induction l as [|w l IH]; intros c; cbn [fold_left].
  - unfold occurrences. cbn. lia.
  - rewrite IH, counter_get_add. unfold occurrences. cbn [List.filter].
    destruct (bool_decide (w = k)); cbn [length]; lia.
Qed.

Lemma counter_get_absent (k : pystr) (c : list (pystr * nat)) :
  ~ In k (c.*1) -> counter_get k c = 0%nat.
Proof.
  induction c as [|[k' n] c IH]; intros Hk; [reflexivity|].
  cbn [counter_get]. destruct (bool_decide_reflect (k' = k)) as [-> | Hne].
  - exfalso. apply Hk. now left.
  - rewrite IH; [lia|]. intros Hin. apply Hk. now right.
Qed.

Lemma counter_get_entry (k : pystr) (n : nat) (c : list (pystr * nat)) :
  NoDup (c.*1) -> In (k, n) c -> counter_get k c = n.
Proof.
  induction c as [|[k' n'] c IH]; intros Hnd Hin; [destruct Hin|].
  cbn [fmap list_fmap fst] in Hnd. apply NoDup_cons in Hnd as [Hk' Hnd].
  cbn [counter_get]. destruct Hin as [Heq | Hin].
  - injection Heq as -> ->. rewrite bool_decide_true by reflexivity.
    rewrite counter_get_absent; [lia|].
    intros Hin. now apply Hk', list_elem_of_In.
  - rewrite (IH Hnd Hin).
    destruct (bool_decide_reflect (k' = k)) as [-> | Hne]; [|lia].
    exfalso. apply Hk', list_elem_of_In.
    apply in_map_iff. now exists (k, n).
Qed.

Lemma occurrences_positive (k : pystr) (l : list pystr) :
  In k l <-> (0 < occurrences k l)%nat.
Proof.
  unfold occurrences. induction l as [|w l IH]; cbn [List.filter In length].
  - split; [intros [] | lia].
  - destruct (bool_decide_reflect (w = k)) as [-> | Hne]; cbn [length].
    + split; [lia | now left].
    + rewrite <- IH. split; [intros [? | ?]; [contradiction | assumption] | now right].
Qed.

Lemma Counter_NoDup (l : list pystr) : NoDup ((Counter l).*1).
Proof. exact (proj1 (Counter_invariant l [] (NoDup_nil_2))). Qed.

(** The count of a key is the number of its occurrences, and the keys are
    the tokens. *)
Lemma Counter_entry (l : list pystr) (k : pystr) (n : nat) :
  In (k, n) (Counter l) -> n = occurrences k l /\ In k l.
Proof.
  intros Hin.
  pose proof (counter_get_entry k n (Counter l) (Counter_NoDup l) Hin) as Hget.
  unfold Counter in Hget. rewrite counter_get_fold in Hget. cbn in Hget.
  split; [now symmetry|].
  destruct (Counter_invariant l [] (NoDup_nil_2)) as (_ & Hsub & _).
  destruct (Hsub k) as [Hk | Hk].
  - apply list_elem_of_In, in_map_iff. now exists (k, n).
  - cbn in Hk. now apply elem_of_nil in Hk.
  - now apply list_elem_of_In.
Qed.

Lemma Counter_keys (l : list pystr) (k : pystr) :
  In k l -> In k ((Counter l).*1).
Proof.
  intros Hk. apply occurrences_positive in Hk.
  destruct (decide (k ∈ (Counter l).*1)) as [Hin | Hnin];
    [now apply list_elem_of_In|].
  rewrite list_elem_of_In in Hnin. apply counter_get_absent in Hnin.
  unfold Counter in Hnin. rewrite counter_get_fold in Hnin. cbn in Hnin. lia.
Qed.

(** A counter has exactly one entry per distinct token. *)
Lemma Counter_size (l : list pystr) :
  length (Counter l) = size (list_to_set l : gset pystr).
Proof.
  rewrite <- (length_fmap fst (Counter l)).
  rewrite <- (size_list_to_set (C := gset pystr) _ (Counter_NoDup l)).
  f_equal. apply set_eq. intros k. rewrite !elem_of_list_to_set, !list_elem_of_In.
  split; [|apply Counter_keys].
  intros Hk. apply in_map_iff in Hk as ([k' n] & <- & Hin).
  now apply Counter_entry in Hin.
Qed.

Section SortByKey.
Context {A : Type} (key : A -> nat).

Let lt (x y : A) : bool := (key x <? key y)%nat.
Let ge (x y : A) : Prop := (key y <= key x)%nat.

Lemma insert_desc_sorted (x : A) (l : list A) :
  StronglySorted ge l -> StronglySorted ge (insert_desc lt x l).
Proof.
  induction l as [|y l IH]; intros Hs; cbn [insert_desc].
  - repeat constructor.
  - apply StronglySorted_inv in Hs as [Hl Hy].
    unfold lt at 1. destruct (Nat.ltb_spec (key x) (key y)) as [Hlt | Hge].
    + constructor; [now apply IH|].
      apply (Permutation_Forall (Permutation_sym (insert_desc_perm lt x l))).
      constructor; [unfold ge; lia | exact Hy].
    + constructor; [now constructor|].
      constructor; [exact Hge|].
      eapply Forall_impl; [exact Hy|]. unfold ge. intros z Hz. lia.
Qed.

Lemma sort_desc_sorted (l : list A) : StronglySorted ge (sort_desc lt l).
Proof.
  induction l as [|x l IH]; [constructor|].
  cbn [sort_desc fold_right]. now apply insert_desc_sorted.
Qed.

End SortByKey.

Lemma StronglySorted_take {A} (R : A -> A -> Prop) (n : nat) (l : list A) :
  StronglySorted R l -> StronglySorted R (take n l).
Proof.
  revert n. induction l as [|x l IH]; intros [|n] Hs; cbn [take]; try constructor.
  - apply IH. now apply StronglySorted_inv in Hs.
  - apply StronglySorted_inv in Hs as [_ Hx].
    apply Forall_forall. intros y Hy.
    apply subseteq_take in Hy.
    rewrite Forall_forall in Hx. now apply Hx.
Qed.

Lemma StronglySorted_map {A B} (R : B -> B -> Prop) (f : A -> B) (l : list A) :
  StronglySorted (fun a b => R (f a) (f b)) l -> StronglySorted R (List.map f l).
Proof.
  induction 1 as [|x l Hs IH Hx]; cbn [List.map]; constructor; [exact IH|].
  apply Forall_forall. intros y Hy. apply list_elem_of_In, in_map_iff in Hy.
  destruct Hy as (a & <- & Ha). rewrite Forall_forall in Hx.
  now apply Hx, list_elem_of_In.
Qed.

Lemma NoDup_take_fst {A B} (n : nat) (l : list (A * B)) :
  NoDup (l.*1) -> NoDup ((take n l).*1).
Proof.
  revert n. induction l as [|x l IH]; intros [|n] Hnd; cbn; try constructor.
  - cbn in Hnd. apply NoDup_cons in Hnd as [Hx _]. intros Hin. apply Hx.
    apply list_elem_of_fmap in Hin as (y & -> & Hy).
    apply list_elem_of_fmap. exists y. split; [reflexivity|].
    now apply subseteq_take in Hy.
  - apply IH. cbn in Hnd. now apply NoDup_cons in Hnd.
Qed.

Lemma total_perm (c c' : list (pystr * nat)) :
  Permutation c c' -> total c = total c'.
Proof. induction 1; cbn [total]; lia. Qed.

Section KeywordOrder.
Context {U : UnicodeDb}.

(** X5: the keywords are returned by descending frequency, and no keyword
    is returned twice. *)
Theorem keywords_sorted_and_distinct (text : pystr) (top_n : nat) :
  exists kws,
    extract_keywords text top_n = Ok kws /\
    StronglySorted (fun a b => (frequency b <= frequency a)%nat) kws /\
    NoDup (List.map keyword kws).
Proof.
  eexists. split; [apply extract_keywords_value|].
  set (c := Counter (retained_tokens text)). unfold most_common. split.
  - apply StronglySorted_map. cbn [entry_of frequency].
    apply StronglySorted_take. apply (sort_desc_sorted snd).
  - rewrite List.map_map. cbn [entry_of keyword].
    apply (NoDup_take_fst top_n).
    rewrite (fmap_Permutation fst _ _ (sort_desc_perm _ c)).
    apply Counter_NoDup.
Qed.

(** X6: the frequency of a returned keyword is the number of times it
    occurs among the retained tokens, which is at least once; the keyword
    has more than 3 characters and is no stop word. *)
Theorem keyword_frequency_is_occurrences (text : pystr) (top_n : nat) :
  exists kws,
    extract_keywords text top_n = Ok kws /\
    Forall (fun k =>
              frequency k = occurrences (keyword k) (retained_tokens text) /\
              (1 <= frequency k)%nat /\
              (3 < length (keyword k))%nat /\
              keyword k ∉ stop_words) kws.
Proof.
  eexists. split; [apply extract_keywords_value|].
  apply Forall_forall. intros k Hin.
  apply list_elem_of_In, in_map_iff in Hin. destruct Hin as ([w n] & <- & Hwc).
  apply most_common_incl in Hwc. apply Counter_entry in Hwc as [Hn Hw].
  cbn [entry_of frequency keyword fst snd].
  split; [exact Hn|]. split.
  { rewrite Hn. now apply occurrences_positive. }
  unfold retained_tokens in Hw. apply filter_In in Hw as [_ Hw].
  apply andb_prop in Hw as [Hlen Hstop]. apply Nat.ltb_lt in Hlen.
  split; [exact Hlen|].
  apply negb_true_iff, bool_decide_eq_false in Hstop. exact Hstop.
Qed.

(** X7: the number of keywords returned is the smaller of [top_n] and the
    number of distinct retained tokens; when [top_n] is not the smaller, the
    frequencies add up to the number of retained tokens. *)
Theorem keywords_count (text : pystr) (top_n : nat) :
  exists kws,
    extract_keywords text top_n = Ok kws /\
    length kws =
      Nat.min top_n (size (list_to_set (retained_tokens text) : gset pystr)) /\
    ((size (list_to_set (retained_tokens text) : gset pystr) <= top_n)%nat ->
     fold_right Nat.add 0%nat (List.map frequency kws) =
       length (retained_tokens text)).
Proof.
  eexists. split; [apply extract_keywords_value|].
  set (tokens := retained_tokens text).
  rewrite length_map. unfold most_common. rewrite length_take.
  rewrite (Permutation_length (sort_desc_perm _ (Counter tokens))).
  rewrite Counter_size. split; [reflexivity|].
  intros Hle. rewrite take_ge
    by (rewrite (Permutation_length (sort_desc_perm _ _)), Counter_size; exact Hle).
  rewrite List.map_map. cbn [entry_of frequency].
  transitivity (total (sort_desc (fun x y => (snd x <? snd y)%nat) (Counter tokens))).
  { generalize (sort_desc (fun x y => (snd x <? snd y)%nat) (Counter tokens)).
    intros c. induction c as [|x c IH]; cbn [List.map fold_right total]; lia. }
  rewrite (total_perm _ _ (sort_desc_perm _ (Counter tokens))).
  destruct (Counter_invariant tokens [] (NoDup_nil_2)) as (_ & _ & Htot).
  exact Htot.
Qed.

End KeywordOrder.

(** ** Summary: an extract in the original order *)

Lemma generate_summary_scored (text : pystr) (max_sentences : nat) :
  (max_sentences < length (retained_sentences text))%nat ->
  generate_summary text max_sentences =
  Ok (str_join (py ". ")
        (collect_in_order
           (top_sentences (retained_sentences text) max_sentences)
           max_sentences [] (retained_sentences text)) ++ py ".").
Proof.
  intros Hlt. unfold generate_summary.
  destruct (Nat.leb_spec (length (retained_sentences text)) max_sentences); [lia|].
  destruct (length (retained_sentences text)) as [|len] eqn:Hlen; [lia|].
  erewrite (map_result_ok _ (score_entry (S len))); [|intros p _; reflexivity].
  cbn [bind]. unfold top_sentences. rewrite Hlen. reflexivity.
Qed.

Lemma enumerate_snd {A} (l : list A) : List.map snd (enumerate l) = l.
Proof.
  unfold enumerate. generalize 0%nat.
  induction l as [|x l IH]; intros k; [reflexivity|].
  cbn [length seq combine List.map snd]. now rewrite IH.
Qed.

(** The selected sentences are retained sentences, each taken as often as
    it was selected. *)
Lemma top_sentences_selected (sentences : list pystr) (max_sentences : nat) :
  top_sentences sentences max_sentences ⊆+ sentences /\
  length (top_sentences sentences max_sentences) =
    Nat.min max_sentences (Nat.min (length sentences) 50).
Proof.
  unfold top_sentences.
  set (k := Nat.min (length sentences) 50).
  set (scored := List.map (score_entry (length sentences)) (enumerate (take k sentences))).
  set (lt := fun x y : Q * pystr => Qlt_bool (fst x) (fst y)).
  assert (Hsnd : List.map snd scored = take k sentences).
  { unfold scored. rewrite List.map_map. cbn [score_entry snd].
    apply enumerate_snd. }
  split.
  - transitivity (List.map snd (sort_desc lt scored)).
    { apply (fmap_submseteq snd). apply submseteq_take. }
    transitivity (List.map snd scored).
    { apply Permutation_submseteq. apply (fmap_Permutation snd), sort_desc_perm. }
    rewrite Hsnd. apply submseteq_take.
  - rewrite length_map, length_take.
    rewrite (Permutation_length (sort_desc_perm lt scored)).
    rewrite <- (length_map snd scored), Hsnd, length_take. subst k. lia.
Qed.

Lemma filter_length_perm {A} (p : A -> bool) (l l' : list A) :
  Permutation l l' -> length (List.filter p l) = length (List.filter p l').
Proof.
  induction 1 as [|x l l' _ IH|x y l|l l' l'' _ IH1 _ IH2];
    cbn [List.filter]; [reflexivity| | |lia].
  - destruct (p x); cbn [length]; lia.
  - destruct (p x), (p y); reflexivity.
Qed.

Lemma selected_occur_often_enough (top sentences : list pystr) :
  top ⊆+ sentences ->
  (length top <=
   length (List.filter (fun s => bool_decide (s ∈ top)) sentences))%nat.
Proof.
  intros Hsub. apply submseteq_Permutation in Hsub as [k Hk].
  rewrite (filter_length_perm _ _ _ Hk), List.filter_app, length_app.
  assert (Hall : List.filter (fun s => bool_decide (s ∈ top)) top = top).
  { apply forallb_filter_id. apply forallb_forall. intros s Hs.
    apply bool_decide_eq_true. now apply list_elem_of_In. }
  rewrite Hall. lia.
Qed.

Lemma collect_in_order_spec (top : list pystr) (max_sentences : nat)
    (acc sentences : list pystr) :
  (length acc < max_sentences)%nat ->
  exists r,
    collect_in_order top max_sentences acc sentences = acc ++ r /\
    r `sublist_of` sentences /\
    length (acc ++ r) =
      Nat.min max_sentences
        (length acc +
         length (List.filter (fun s => bool_decide (s ∈ top)) sentences)).
Proof.
  revert acc. induction sentences as [|s rest IH]; intros acc Hacc.
  - exists []. rewrite app_nil_r. cbn. repeat split; [constructor | lia].
  - cbn [collect_in_order List.filter].
    destruct (bool_decide (s ∈ top)).
    + rewrite length_app. cbn [length].
      destruct (Nat.leb_spec max_sentences (length acc + 1)) as [Hfull | Hroom].
      * exists [s]. split; [reflexivity|]. split.
        { apply sublist_skip, sublist_nil_l. }
        rewrite length_app. cbn [length]. lia.
      * destruct (IH (acc ++ [s])) as (r & Hr & Hsub & Hlen).
        { rewrite length_app. cbn [length]. lia. }
        exists (s :: r). rewrite Hr, <- app_assoc. split; [reflexivity|].
        split; [now apply sublist_skip|].
        rewrite <- app_assoc in Hlen. cbn [app] in Hlen. rewrite Hlen.
        rewrite length_app. cbn [length]. lia.
    + destruct (IH acc Hacc) as (r & Hr & Hsub & Hlen).
      exists r. split; [exact Hr|]. split; [now apply sublist_cons | exact Hlen].
Qed.

Lemma collect_in_order_nothing (max_sentences : nat) (acc sentences : list pystr) :
  collect_in_order [] max_sentences acc sentences = acc.
Proof.
  induction sentences as [|s rest IH]; [reflexivity|].
  cbn [collect_in_order]. rewrite bool_decide_false by apply not_elem_of_nil.
  exact IH.
Qed.

(** X8: the summary always returns; it is made of retained sentences in
    their original order (none repeated or moved), joined by [". "] and
    ended by a period. All retained sentences are used when there are at
    most [max_sentences]; otherwise at most [max_sentences] are used, and
    no fewer than the smaller of [max_sentences] and the 50 sentences that
    are scored. *)
Theorem summary_is_ordered_extract (text : pystr) (max_sentences : nat) :
  exists chosen,
    generate_summary text max_sentences =
      Ok (str_join (py ". ") chosen ++ py ".") /\
    chosen `sublist_of` retained_sentences text /\
    (if (length (retained_sentences text) <=? max_sentences)%nat
     then chosen = retained_sentences text
     else (Nat.min max_sentences 50 <= length chosen <= max_sentences)%nat).
Proof.
  set (sentences := retained_sentences text).
  destruct (Nat.leb_spec (length sentences) max_sentences) as [Hle | Hlt].
  - exists sentences. split; [|split; reflexivity].
    unfold generate_summary. fold sentences.
    now destruct (Nat.leb_spec (length sentences) max_sentences); [|lia].
  - rewrite (generate_summary_scored text max_sentences Hlt). fold sentences.
    destruct (top_sentences_selected sentences max_sentences) as [Hsub Hlen].
    destruct max_sentences as [|m].
    + exists []. unfold top_sentences. cbn [take List.map].
      rewrite collect_in_order_nothing.
      split; [reflexivity|]. split; [apply sublist_nil_l | cbn; lia].
    + destruct (collect_in_order_spec (top_sentences sentences (S m)) (S m) [] sentences)
        as (r & Hr & Hsubl & Hr_len); [cbn; lia|].
      cbn [app length] in Hr, Hr_len. exists r. rewrite Hr.
      split; [reflexivity|]. split; [exact Hsubl|].
      pose proof (selected_occur_often_enough _ _ Hsub) as Hocc.
      rewrite Hr_len. lia.
Qed.

(** ** Links: what is matched, and when parsing fails *)

Lemma startswith_app (p s : pystr) :
  startswith p s = true <-> exists r, s = p ++ r.
Proof.
  revert s. induction p as [|a p IH]; intros s; cbn [startswith].
  - split; [intros _; now exists s | reflexivity].
  - destruct s as [|b s].
    + split; [discriminate | intros [r Hr]; discriminate Hr].
    + rewrite andb_true_iff, N.eqb_eq, IH. split.
      * intros [-> [r ->]]. now exists r.
      * intros [r Hr]. injection Hr as -> ->. split; [reflexivity | now exists r].
Qed.

(** The last alternative of the group never decides: [%] and the
    hexadecimal digits are characters of the earlier alternatives. *)
Lemma url_atom_one (s : pystr) (n : nat) :
  url_atom s = Some n ->
  n = 1%nat /\ exists c rest, s = c :: rest /\ is_url_char c = true.
Proof.
  destruct s as [|c rest]; cbn [url_atom]; [discriminate|].
  destruct (is_url_char c) eqn:Hc.
  - intros [= <-]. split; [reflexivity | now exists c, rest].
  - destruct rest as [|h1 [|h2 rest]]; try discriminate.
    destruct (N.eqb_spec c 37) as [-> | _]; [discriminate Hc | discriminate].
Qed.

Lemma url_run_spec (s : pystr) :
  (url_run 0 s <= length s)%nat /\
  forallb is_url_char (take (url_run 0 s) s) = true.
Proof.
  induction s as [|c s [IH1 IH2]]; [split; reflexivity|].
  cbn [url_run]. destruct (url_atom (c :: s)) as [n|] eqn:Ha.
  - apply url_atom_one in Ha as (-> & c' & rest & [= <- <-] & Hc).
    cbn [Nat.sub take forallb length]. rewrite Hc, IH2. split; [lia | reflexivity].
  - split; [cbn; lia | reflexivity].
Qed.

Lemma match_url_tail_spec (n : nat) (s : pystr) (m : nat) :
  match_url_tail n s = Some m ->
  exists k r, s = py "://" ++ r /\ m = (n + 3 + k)%nat /\ (0 < k <= length r)%nat /\
              forallb is_url_char (take k r) = true.
Proof.
  unfold match_url_tail. destruct (startswith (py "://") s) eqn:Hs; [|discriminate].
  apply startswith_app in Hs as [r ->].
  change (drop 3 (py "://" ++ r)) with r.
  destruct (Nat.ltb_spec 0 (url_run 0 r)) as [Hk | _]; [|discriminate].
  intros [= <-]. exists (url_run 0 r), r.
  destruct (url_run_spec r) as [Hle Hall]. repeat split; assumption || lia.
Qed.

Lemma take_app_length' {A} (p r : list A) (k : nat) :
  take (length p + k) (p ++ r) = p ++ take k r.
Proof. induction p as [|a p IH]; [reflexivity|]. cbn. now rewrite IH. Qed.

(** A match of the pattern has the shape of a URL. *)
Lemma match_url_shape (s : pystr) (m : nat) :
  match_url s = Some m ->
  exists scheme_name rest, url_shape (take m s) scheme_name rest.
Proof.
  unfold match_url. destruct (startswith (py "http") s) eqn:Hs; [|discriminate].
  apply startswith_app in Hs as [r ->].
  change (drop 4 (py "http" ++ r)) with r.
  assert (Hplain : forall m, match_url_tail 4 r = Some m ->
            exists rest, url_shape (take m (py "http" ++ r)) (py "http") rest).
  { intros m' Hm. apply match_url_tail_spec in Hm as (k & r2 & -> & -> & Hk & Hall).
    exists (take k r2). split; [now left|]. split.
    - change (4 + 3 + k)%nat with (length (py "http://") + k)%nat.
      change (py "http" ++ py "://" ++ r2) with (py "http://" ++ r2).
      now rewrite take_app_length'.
    - split; [|exact Hall]. destruct r2, k; cbn in *; try lia; discriminate. }
  assert (Hsecure : forall r' m, r = 115 :: r' -> match_url_tail 5 r' = Some m ->
            exists rest, url_shape (take m (py "http" ++ r)) (py "https") rest).
  { intros r' m' -> Hm.
    apply match_url_tail_spec in Hm as (k & r2 & -> & -> & Hk & Hall).
    exists (take k r2). split; [now right|]. split.
    - change (5 + 3 + k)%nat with (length (py "https://") + k)%nat.
      change (py "http" ++ 115 :: py "://" ++ r2) with (py "https://" ++ r2).
      now rewrite take_app_length'.
    - split; [|exact Hall]. destruct r2, k; cbn in *; try lia; discriminate. }
  destruct r as [|c r']; [intros Hm; exists (py "http"); now apply Hplain|].
  destruct (N.eqb_spec c 115) as [-> | Hc].
  - destruct (match_url_tail 5 r') as [m'|] eqn:Hm5.
    + intros [= <-]. exists (py "https"). now apply (Hsecure r').
    + intros Hm. exists (py "http"). now apply Hplain.
  - intros Hm. exists (py "http"). apply Hplain.
    destruct c as [|p]; [exact Hm|].
    repeat (destruct p as [p|p|]; try exact Hm). contradiction.
Qed.

Lemma findall_urls_In (u : pystr) (skip : nat) (s : pystr) :
  In u (findall_urls skip s) ->
  exists pre s' m, s = pre ++ s' /\ match_url s' = Some m /\ u = take m s'.
Proof.
  revert skip. induction s as [|c s IH]; intros skip Hin; [destruct Hin|].
  cbn [findall_urls] in Hin.
  assert (Hrec : forall k, In u (findall_urls k s) ->
            exists pre s' m, c :: s = pre ++ s' /\ match_url s' = Some m /\ u = take m s').
  { intros k Hk. destruct (IH k Hk) as (pre & s' & m & -> & Hm & Hu).
    now exists (c :: pre), s', m. }
  destruct skip as [|k]; [|now apply (Hrec k)].
  destruct (match_url (c :: s)) as [n|] eqn:Hm; [|now apply (Hrec 0%nat)].
  destruct Hin as [<- | Hin]; [|now apply (Hrec (n - 1)%nat)].
  now exists [], (c :: s), n.
Qed.

Lemma count_occurrence (sub pre post : pystr) :
  sub <> [] -> (1 <= str_count (pre ++ sub ++ post) sub)%nat.
Proof.
  intros Hsub. unfold str_count. induction pre as [|c pre IH].
  - destruct sub as [|a sub]; [contradiction|].
    cbn [app count_aux].
    assert (Hs : startswith (a :: sub) (a :: sub ++ post) = true)
      by (apply startswith_app; now exists post).
    rewrite Hs. lia.
  - cbn [app count_aux]. destruct (startswith sub (c :: pre ++ sub ++ post)); [lia | exact IH].
Qed.

(** What [urlparse] gives for a match of the pattern. *)
Lemma urlparse_of_match (u scheme_name rest : pystr) :
  url_shape u scheme_name rest ->
  urlparse u =
  if unbalanced_brackets (netloc_of rest) then Raise ValueError
  else Ok {| pr_scheme := scheme_name; pr_netloc := netloc_of rest |}.
Proof.
  intros ([-> | ->] & -> & _ & _); reflexivity.
Qed.

Lemma map_result_Ok_inv {A B} (f : A -> result B) (l : list A) (bs : list B) :
  map_result f l = Ok bs -> Forall2 (fun a b => f a = Ok b) l bs.
Proof.
  revert bs. induction l as [|a l IH]; intros bs; cbn [map_result].
  - intros [= <-]. constructor.
  - destruct (f a) as [b|e] eqn:Hb; cbn [bind]; [|discriminate].
    destruct (map_result f l) as [bs'|e]; cbn [bind]; [|discriminate].
    intros [= <-]. constructor; [exact Hb | now apply IH].
Qed.


Lemma unique_urls_In (text u : pystr) :
  In u (elements (list_to_set (findall_urls 0 text) : gset pystr)) <->
  In u (findall_urls 0 text).
Proof.
  rewrite <- !list_elem_of_In, elem_of_elements, elem_of_list_to_set. reflexivity.
Qed.

(** A match of the pattern found in [text]: its shape, and where it is. *)
Lemma found_url_occurs (text u : pystr) :
  In u (findall_urls 0 text) ->
  (exists scheme_name rest, url_shape u scheme_name rest) /\
  exists pre post, text = pre ++ u ++ post.
Proof.
  intros Hin. apply findall_urls_In in Hin as (pre & s' & m & -> & Hm & ->).
  split; [now apply match_url_shape|].
  exists pre, (drop m s'). now rewrite take_drop.
Qed.

Lemma Forall2_In_r {A B} (R : A -> B -> Prop) (l : list A) (bs : list B) (b : B) :
  Forall2 R l bs -> In b bs -> exists a, In a l /\ R a b.
Proof.
  induction 1 as [|a b' l bs Hab _ IH]; intros Hin; [destruct Hin|].
  destruct Hin as [<- | Hin].
  - exists a. split; [now left | exact Hab].
  - destruct (IH Hin) as (a' & Ha' & HR). exists a'. split; [now right | exact HR].
Qed.


(** The entry built for a URL that [urlparse] accepts. *)
Lemma link_entry_inv (text u : pystr) (l : link) :
  (do parsed <- urlparse u;
   Ok {| url := u; domain := pr_netloc parsed; scheme := pr_scheme parsed;
         count := str_count text u |}) = Ok l ->
  exists parsed, urlparse u = Ok parsed /\
    url l = u /\ domain l = pr_netloc parsed /\ scheme l = pr_scheme parsed /\
    count l = str_count text u.
Proof.
  destruct (urlparse u) as [parsed|e]; cbn [bind]; [|discriminate].
  intros [= <-]. exists parsed. repeat split.
Qed.

(** X9: every link returned has a URL that the pattern matched: [http://]
    or [https://] followed by at least one character of the group. Its
    scheme is that prefix without [://], its domain is what follows up to
    the first [/], [?] or [#], and its count is the number of occurrences
    of the URL in the text, which is at least 1. *)
Theorem links_describe_matches (text : pystr) (ls : list link) :
  extract_links text = Ok ls ->
  Forall (fun l =>
            exists rest,
              url_shape (url l) (scheme l) rest /\
              domain l = netloc_of rest /\
              count l = str_count text (url l) /\
              (1 <= count l)%nat) ls.
Proof.
  unfold extract_links. intros Hok. apply map_result_Ok_inv in Hok.
  apply Forall_forall. intros l Hl. apply list_elem_of_In in Hl.
  destruct (Forall2_In_r _ _ _ l Hok Hl) as (u & Hu & Hentry).
  apply unique_urls_In in Hu.
  apply link_entry_inv in Hentry as (parsed & Hparse & Hurl & Hdom & Hsch & Hcnt).
  destruct (found_url_occurs text u Hu) as [(sch & rest & Hshape) (pre & post & Htext)].
  rewrite (urlparse_of_match u sch rest Hshape) in Hparse.
  destruct (unbalanced_brackets (netloc_of rest)); [discriminate|].
  injection Hparse as <-. cbn [pr_scheme pr_netloc] in *.
  exists rest. rewrite Hurl, Hsch, Hdom, Hcnt.
  split; [exact Hshape|]. split; [reflexivity|]. split; [reflexivity|].
  rewrite Htext at 1. apply count_occurrence.
  destruct Hshape as (_ & -> & _ & _). destruct sch; discriminate.
Qed.

Lemma links_describe_matches_witness :
  Forall (fun l =>
            exists rest,
              url_shape (url l) (scheme l) rest /\
              domain l = netloc_of rest /\
              count l = str_count (py "Docs at https://a.io/x?y=1, again https://a.io/x?y=1") (url l) /\
              (1 <= count l)%nat)
         [ {| url := py "https://a.io/x?y=1"; domain := py "a.io";
              scheme := py "https"; count := 2 |};
           {| url := py "https://a.io/x?y=1,"; domain := py "a.io";
              scheme := py "https"; count := 1 |} ].
Proof.
  apply (links_describe_matches
           (py "Docs at https://a.io/x?y=1, again https://a.io/x?y=1")).
  vm_compute. reflexivity.
Defined.

(** X10: when link extraction returns, it returns one link for each
    distinct match of the pattern: no URL twice, and every match found in
    the text is the URL of a link. *)
Theorem links_one_per_distinct_match (text : pystr) (ls : list link) :
  extract_links text = Ok ls ->
  NoDup (List.map url ls) /\
  length ls = size (list_to_set (findall_urls 0 text) : gset pystr) /\
  (forall u, In u (findall_urls 0 text) <-> In u (List.map url ls)).
Proof.
  unfold extract_links. intros Hok. apply map_result_Ok_inv in Hok.
  set (unique := elements (list_to_set (findall_urls 0 text) : gset pystr)) in *.
  assert (Hurls : List.map url ls = unique).
  { clearbody unique. induction Hok as [|u l us ls' Hu _ IH]; [reflexivity|].
    apply link_entry_inv in Hu as (_ & _ & Hurl & _).
    cbn [List.map]. now rewrite Hurl, IH. }
  rewrite Hurls. split; [apply NoDup_elements|]. split.
  - rewrite <- (length_map url ls), Hurls. reflexivity.
  - intros u. symmetry. apply unique_urls_In.
Qed.

Lemma links_one_per_distinct_match_witness :
  NoDup (List.map url
           [ {| url := py "http://example.com"; domain := py "example.com";
                scheme := py "http"; count := 2 |} ]) /\
  length [ {| url := py "http://example.com"; domain := py "example.com";
              scheme := py "http"; count := 2 |} ] =
    size (list_to_set
            (findall_urls 0 (py "Visit http://example.com and http://example.com again"))
          : gset pystr) /\
  (forall u,
     In u (findall_urls 0 (py "Visit http://example.com and http://example.com again")) <->
     In u (List.map url
             [ {| url := py "http://example.com"; domain := py "example.com";
                  scheme := py "http"; count := 2 |} ])).
Proof.
  apply (links_one_per_distinct_match
           (py "Visit http://example.com and http://example.com again")).
  vm_compute. reflexivity.
Defined.


(** ** List items: what the three patterns match *)

Lemma nullable_lang (r : regex) : nullable r = true <-> lang r [].
Proof.
  induction r as [| |p|r1 IH1 r2 IH2|r1 IH1 r2 IH2|r IH]; cbn [nullable].
  - split; [discriminate | inversion 1].
  - split; [constructor | reflexivity].
  - split; [discriminate | inversion 1].
  - rewrite andb_true_iff, IH1, IH2. split.
    + intros [H1 H2]. exact (lang_cat r1 r2 [] [] H1 H2).
    + inversion 1 as [| |? ? s1 s2 H1 H2 Heq Hs| | | |]; subst.
      apply app_eq_nil in Hs as [-> ->]. now split.
  - rewrite orb_true_iff, IH1, IH2. split.
    + intros [H | H]; [now apply lang_alt_l | now apply lang_alt_r].
    + inversion 1; subst; [now left | now right].
  - split; [constructor | reflexivity].
Qed.

Lemma lang_star_cons_inv_gen (r' : regex) (t : pystr) :
  lang r' t ->
  forall r c s, r' = Star r -> t = c :: s ->
  exists s1 s2, s = s1 ++ s2 /\ lang r (c :: s1) /\ lang (Star r) s2.
Proof.
  induction 1 as [| | | | | |r0 s1 s2 H1 _ H2 IH2]; intros rr cc ss Hr Ht;
    try discriminate.
  injection Hr as ->. destruct s1 as [|c1 s1].
  - cbn [app] in Ht. now apply IH2.
  - cbn [app] in Ht. injection Ht as -> <-. now exists s1, s2.
Qed.

Lemma lang_star_cons_inv (r : regex) (c : char) (s : pystr) :
  lang (Star r) (c :: s) ->
  exists s1 s2, s = s1 ++ s2 /\ lang r (c :: s1) /\ lang (Star r) s2.
Proof. intros H. now apply (lang_star_cons_inv_gen _ _ H). Qed.

Lemma deriv_lang (r : regex) (c : char) (s : pystr) :
  lang (deriv c r) s <-> lang r (c :: s).
Proof.
  revert s. induction r as [| |p|r1 IH1 r2 IH2|r1 IH1 r2 IH2|r IH];
    intros s; cbn [deriv].
  - split; inversion 1.
  - split; inversion 1.
  - destruct (p c) eqn:Hp; split.
    + inversion 1; subst. now constructor.
    + inversion 1; subst. constructor.
    + inversion 1.
    + inversion 1; subst. congruence.
  - assert (Hleft : lang (Cat (deriv c r1) r2) s ->  lang (Cat r1 r2) (c :: s)).
    { inversion 1 as [| |? ? s1 s2 H1 H2| | | |]; subst.
      apply IH1 in H1. exact (lang_cat r1 r2 (c :: s1) s2 H1 H2). }
    assert (Hinv : lang (Cat r1 r2) (c :: s) ->
              lang (Cat (deriv c r1) r2) s \/ (lang r1 [] /\ lang (deriv c r2) s)).
    { inversion 1 as [| |? ? s1 s2 H1 H2 Heq Hs| | | |]; subst.
      destruct s1 as [|c1 s1]; cbn [app] in Hs.
      - right. subst s2. split; [exact H1 | now apply IH2].
      - injection Hs as -> <-. left. constructor; [now apply IH1 | exact H2]. }
    destruct (nullable r1) eqn:Hn.
    + split.
      * inversion 1; subst; [now apply Hleft|].
        apply nullable_lang in Hn.
        match goal with H : lang (deriv c r2) s |- _ => apply IH2 in H;
          exact (lang_cat r1 r2 [] (c :: s) Hn H) end.
      * intros H. destruct (Hinv H) as [HL | [_ HR]];
          [now apply lang_alt_l | now apply lang_alt_r].
    + split; [exact Hleft|].
      intros H. destruct (Hinv H) as [HL | [H1 _]]; [exact HL|].
      apply nullable_lang in H1. congruence.
  - split.
    + inversion 1; subst; [apply lang_alt_l | apply lang_alt_r];
        [now apply IH1 | now apply IH2].
    + inversion 1; subst; [apply lang_alt_l | apply lang_alt_r];
        [now apply IH1 | now apply IH2].
  - split.
    + inversion 1 as [| |? ? s1 s2 H1 H2| | | |]; subst.
      apply IH in H1. exact (lang_star_cons r (c :: s1) s2 H1 H2).
    + intros H. apply lang_star_cons_inv in H as (s1 & s2 & -> & H1 & H2).
      constructor; [now apply IH | exact H2].
Qed.

(** [re_match] succeeds when a prefix of the line is matched in full. *)
Lemma re_match_lang (r : regex) (s : pystr) :
  re_match r s = true <-> exists p q, s = p ++ q /\ lang r p.
Proof.
  revert r. induction s as [|c s IH]; intros r; cbn [re_match].
  - rewrite orb_false_r, nullable_lang. split.
    + intros H. now exists [], [].
    + intros (p & q & Hs & H). symmetry in Hs. apply app_eq_nil in Hs as [-> _].
      exact H.
  - rewrite orb_true_iff, nullable_lang, IH. split.
    + intros [H | (p & q & -> & H)].
      * now exists [], (c :: s).
      * exists (c :: p), q. split; [reflexivity | now apply deriv_lang].
    + intros (p & q & Hs & H). destruct p as [|c' p]; [now left|].
      cbn [app] in Hs. injection Hs as <- ->. right.
      exists p, q. split; [reflexivity | now apply deriv_lang].
Qed.

Lemma lang_star_chr_gen (r : regex) (s : pystr) :
  lang r s -> forall p, r = Star (Chr p) -> forallb p s = true.
Proof.
  induction 1 as [| | | | | |r0 s1 s2 H1 _ H2 IH2]; intros q Hr;
    try discriminate; [reflexivity|].
  injection Hr as ->. inversion H1; subst. cbn [app forallb].
  rewrite (IH2 q) by reflexivity. now rewrite andb_true_r.
Qed.

Lemma lang_star_chr (p : char -> bool) (s : pystr) :
  lang (Star (Chr p)) s <-> forallb p s = true.
Proof.
  split; [intros H; now apply (lang_star_chr_gen _ _ H)|].
  induction s as [|c s IH]; [constructor|].
  cbn [forallb]. intros H. apply andb_prop in H as [Hc Hs].
  exact (lang_star_cons (Chr p) [c] s (lang_chr p c Hc) (IH Hs)).
Qed.

Lemma lang_plus_chr (p : char -> bool) (s : pystr) :
  lang (Plus (Chr p)) s <-> exists c s', s = c :: s' /\ p c = true /\ forallb p s' = true.
Proof.
  unfold Plus. split.
  - inversion 1 as [| |? ? s1 s2 H1 H2| | | |]; subst.
    inversion H1; subst. apply lang_star_chr in H2. now eexists _, _.
  - intros (c & s' & -> & Hc & Hs).
    apply (lang_cat (Chr p) (Star (Chr p)) [c] s'); [now constructor|].
    now apply lang_star_chr.
Qed.

Lemma lang_chr_inv (p : char -> bool) (s : pystr) :
  lang (Chr p) s <-> exists c, s = [c] /\ p c = true.
Proof.
  split; [inversion 1; subst; now eexists | intros (c & -> & Hc); now constructor].
Qed.

Lemma lang_cat_inv (r1 r2 : regex) (s : pystr) :
  lang (Cat r1 r2) s <-> exists s1 s2, s = s1 ++ s2 /\ lang r1 s1 /\ lang r2 s2.
Proof.
  split; [inversion 1; subst; now eexists _, _ |].
  intros (s1 & s2 & -> & H1 & H2). now constructor.
Qed.

Lemma bullet_pattern_matches (line : pystr) :
  re_match bullet_pattern line = true <-> bullet_line line.
Proof.
  rewrite re_match_lang. unfold bullet_pattern, bullet_line. split.
  - intros (p & q & -> & H).
    apply lang_cat_inv in H as (ws & t & -> & Hws & H).
    apply lang_cat_inv in H as (b1 & t2 & -> & Hb & Hw).
    apply lang_star_chr in Hws. apply lang_chr_inv in Hb as (b & -> & Hb).
    apply lang_plus_chr in Hw as (w & ws' & -> & Hw & _).
    exists ws, b, w, (ws' ++ q). rewrite <- !app_assoc. now repeat split.
  - intros (ws & b & w & rest & -> & Hws & Hb & Hw).
    exists (ws ++ [b] ++ [w]), rest. split; [now rewrite <- !app_assoc|].
    apply lang_cat_inv. exists ws, ([b] ++ [w]). split; [reflexivity|].
    split; [now apply lang_star_chr|].
    apply lang_cat_inv. exists [b], [w]. split; [reflexivity|].
    split; [now constructor|]. apply lang_plus_chr. now exists w, [].
Qed.

Lemma lettered_pattern_matches (line : pystr) :
  re_match lettered_pattern line = true <-> lettered_line line.
Proof.
  rewrite re_match_lang. unfold lettered_pattern, lettered_line. split.
  - intros (p & q & -> & H).
    apply lang_cat_inv in H as (ws & t & -> & Hws & H).
    apply lang_cat_inv in H as (a1 & t2 & -> & Ha & H).
    apply lang_cat_inv in H as (d1 & t3 & -> & Hd & Hw).
    apply lang_star_chr in Hws. apply lang_chr_inv in Ha as (a & -> & Ha).
    apply lang_chr_inv in Hd as (d & -> & Hd).
    apply lang_plus_chr in Hw as (w & ws' & -> & Hw & _).
    exists ws, a, d, w, (ws' ++ q). rewrite <- !app_assoc. now repeat split.
  - intros (ws & a & d & w & rest & -> & Hws & Ha & Hd & Hw).
    exists (ws ++ [a] ++ [d] ++ [w]), rest. split; [now rewrite <- !app_assoc|].
    apply lang_cat_inv. exists ws, ([a] ++ [d] ++ [w]). split; [reflexivity|].
    split; [now apply lang_star_chr|].
    apply lang_cat_inv. exists [a], ([d] ++ [w]). split; [reflexivity|].
    split; [now constructor|].
    apply lang_cat_inv. exists [d], [w]. split; [reflexivity|].
    split; [now constructor|]. apply lang_plus_chr. now exists w, [].
Qed.

Section ListItems.
Context {U : UnicodeDb}.

Lemma numbered_pattern_matches (line : pystr) :
  re_match numbered_pattern line = true <-> numbered_line line.
Proof.
  rewrite re_match_lang. unfold numbered_pattern, numbered_line. split.
  - intros (p & q & -> & H).
    apply lang_cat_inv in H as (ws & t & -> & Hws & H).
    apply lang_cat_inv in H as (ds & t2 & -> & Hds & H).
    apply lang_cat_inv in H as (d1 & t3 & -> & Hd & Hw).
    apply lang_star_chr in Hws.
    apply lang_plus_chr in Hds as (d0 & ds' & -> & Hd0 & Hds').
    apply lang_chr_inv in Hd as (d & -> & Hd).
    apply lang_plus_chr in Hw as (w & ws' & -> & Hw & _).
    exists ws, (d0 :: ds'), d, w, (ws' ++ q). rewrite <- !app_assoc.
    split; [reflexivity|]. split; [exact Hws|]. split; [discriminate|].
    split; [cbn [forallb]; now rewrite Hd0, Hds'|]. now split.
  - intros (ws & ds & d & w & rest & -> & Hws & Hne & Hds & Hd & Hw).
    exists (ws ++ ds ++ [d] ++ [w]), rest. split; [now rewrite <- !app_assoc|].
    apply lang_cat_inv. exists ws, (ds ++ [d] ++ [w]). split; [reflexivity|].
    split; [now apply lang_star_chr|].
    apply lang_cat_inv. exists ds, ([d] ++ [w]). split; [reflexivity|]. split.
    + apply lang_plus_chr. destruct ds as [|d0 ds']; [contradiction|].
      cbn [forallb] in Hds. apply andb_prop in Hds as [Hd0 Hds'].
      now exists d0, ds'.
    + apply lang_cat_inv. exists [d], [w]. split; [reflexivity|].
      split; [now constructor|]. apply lang_plus_chr. now exists w, [].
Qed.

(** X12: a list item is reported for the line at index [li_position]
    exactly when the line starts, after any whitespace, with a bullet glyph
    ([-], [*] or the bullet character), or with digits and [.] or [)], or
    with one letter of [a-z] and [.] or [)], each followed by a whitespace
    character. Its text is the trimmed line; it is a bullet in the first
    case, and numbered otherwise, a lettered item being reported as
    numbered. *)
Theorem list_item_detection (text : pystr) (item : list_item) :
  In item (listItems (analyze_structure text)) <->
  exists line,
    str_split_sep [LF] text !! li_position item = Some line /\
    li_text item = str_strip line /\
    ((li_type item = bullet /\ bullet_line line) \/
     (li_type item = numbered /\ ~ bullet_line line /\
      (numbered_line line \/ lettered_line line))).
Proof.
  unfold analyze_structure. cbn [listItems]. unfold detect_list_items.
  set (lines := str_split_sep [LF] text).
  rewrite in_flat_map. split.
  - intros [[i line] [Hin Hitem]]. apply enumerate_In in Hin.
    cbn [fst snd] in Hitem. exists line.
    destruct (re_match bullet_pattern line) eqn:Hb.
    + destruct Hitem as [<- | []]. cbn [li_position li_text li_type].
      split; [exact Hin|]. split; [reflexivity|]. left.
      split; [reflexivity | now apply bullet_pattern_matches].
    + destruct (re_match numbered_pattern line || re_match lettered_pattern line)
        eqn:Hn; [|destruct Hitem].
      destruct Hitem as [<- | []]. cbn [li_position li_text li_type].
      split; [exact Hin|]. split; [reflexivity|]. right. split; [reflexivity|].
      split.
      * intros Hbl. apply bullet_pattern_matches in Hbl. congruence.
      * apply orb_prop in Hn as [Hn | Hn];
          [left; now apply numbered_pattern_matches
          | right; now apply lettered_pattern_matches].
  - intros (line & Hline & Htext & Hkind).
    exists (li_position item, line). split; [now apply enumerate_In|].
    cbn [fst snd]. destruct item as [t p k]. cbn [li_position li_text li_type] in *.
    subst t. destruct Hkind as [[-> Hb] | (-> & Hnb & Hn)].
    + apply bullet_pattern_matches in Hb. rewrite Hb. now left.
    + destruct (re_match bullet_pattern line) eqn:Hb.
      { exfalso. apply Hnb. now apply bullet_pattern_matches. }
      assert (Hm : re_match numbered_pattern line || re_match lettered_pattern line = true).
      { apply orb_true_iff. destruct Hn as [Hn | Hn];
          [left; now apply numbered_pattern_matches
          | right; now apply lettered_pattern_matches]. }
      rewrite Hm. now left.
Qed.

End ListItems.

(** ** Document trees: tables and text of a well-formed document *)

Lemma map_result_encode {A B C} (enc : A -> B) (f : B -> result C) (g : A -> C)
    (l : list A) :
  (forall x, f (enc x) = Ok (g x)) ->
  map_result f (List.map enc l) = Ok (List.map g l).
Proof.
  intros Hf. induction l as [|x l IH]; [reflexivity|].
  cbn [List.map map_result]. rewrite Hf, IH. reflexivity.
Qed.

Lemma flat_map_result_encode {A B C} (enc : A -> B) (f : B -> result (list C))
    (g : A -> list C) (l : list A) :
  (forall x, f (enc x) = Ok (g x)) ->
  flat_map_result f (List.map enc l) = Ok (flat_map g l).
Proof.
  intros Hf. induction l as [|x l IH]; [reflexivity|].
  cbn [List.map flat_map_result flat_map]. rewrite Hf, IH. reflexivity.
Qed.

Lemma py_join_empty_strings (l : list pystr) :
  py_join_empty (List.map PStr l) = Ok (concat l).
Proof.
  induction l as [|s l IH]; [reflexivity|].
  cbn [List.map py_join_empty concat]. now rewrite IH.
Qed.

Lemma flat_map_map_PStr {A} (g : A -> list pystr) (l : list A) :
  flat_map (fun x => List.map PStr (g x)) l = List.map PStr (flat_map g l).
Proof.
  induction l as [|x l IH]; [reflexivity|].
  cbn [flat_map]. now rewrite IH, List.map_app.
Qed.

Lemma element_runs_encode (e : run_elem) :
  element_runs (encode_elem e) =
  Ok (List.map PStr (match e with ERun s => [s] | EOther => [] end)).
Proof. destruct e; reflexivity. Qed.

Lemma elements_runs_encode (elements : option (list run_elem)) :
  (do elements_v <- py_get (PDict (opt_item "elements" (encode_list encode_elem elements)))
                      (py "elements") (PList []);
   do elems <- py_iter elements_v;
   flat_map_result element_runs elems) =
  Ok (List.map PStr (runs_of elements)).
Proof.
  destruct elements as [l|]; [|reflexivity].
  unfold runs_of. cbn [present]. rewrite <- flat_map_map_PStr.
  rewrite <- (flat_map_result_encode encode_elem element_runs _ l element_runs_encode).
  reflexivity.
Qed.

Lemma content_runs_encode (c : content_item) :
  content_runs (encode_content c) =
  Ok (List.map PStr (match c with CParagraph els => runs_of els | COther => [] end)).
Proof.
  destruct c as [elements|]; [|reflexivity].
  rewrite <- elements_runs_encode. reflexivity.
Qed.

Lemma cell_content_encode (c : option (list content_item)) :
  (do content_v <- py_get (encode_cell c) (py "content") (PList []);
   do contents <- py_iter content_v;
   flat_map_result content_runs contents) =
  Ok (List.map PStr (cell_runs c)).
Proof.
  destruct c as [l|]; [|reflexivity].
  unfold cell_runs. cbn [present]. rewrite <- flat_map_map_PStr.
  rewrite <- (flat_map_result_encode encode_content content_runs _ l content_runs_encode).
  reflexivity.
Qed.

Lemma parse_cell_encode (c : option (list content_item)) :
  parse_cell (encode_cell c) = Ok (str_strip (concat (cell_runs c))).
Proof.
  unfold parse_cell.
  pose proof (cell_content_encode c) as Hc.
  destruct (py_get (encode_cell c) (py "content") (PList [])) as [v|e];
    cbn [bind] in *; [|discriminate].
  destruct (py_iter v) as [contents|e]; cbn [bind] in *; [|discriminate].
  rewrite Hc. cbn [bind]. now rewrite py_join_empty_strings.
Qed.

Lemma parse_row_encode (r : option (list (option (list content_item)))) :
  parse_row (encode_row r) =
  Ok (List.map (fun c => str_strip (concat (cell_runs c))) (present r)).
Proof.
  destruct r as [l|]; [|reflexivity].
  cbn [present].
  rewrite <- (map_result_encode encode_cell parse_cell _ l parse_cell_encode).
  reflexivity.
Qed.

Lemma parse_table_encode
    (t : option (list (option (list (option (list content_item)))))) :
  parse_table (PDict (opt_item "tableRows" (encode_list encode_row t))) =
  Ok (table_of t).
Proof.
  unfold table_of. destruct t as [l|]; [|reflexivity].
  cbn [present]. unfold parse_table.
  change (py_get (PDict (opt_item "tableRows" (encode_list encode_row (Some l))))
            (py "tableRows") (PList []))
    with (Ok (PList (List.map encode_row l))).
  cbn [bind py_iter].
  rewrite (map_result_encode encode_row parse_row _ l parse_row_encode).
  reflexivity.
Qed.

(** X13: for a document in which any of the keys [body], [content],
    [tableRows], [tableCells], a cell's [content], [paragraph], [elements]
    and [textRun] may be absent, and every text run has its content, table
    extraction returns one table per table element, in order; an absent key
    counts as an empty list, and the text of a cell is the trimmed
    concatenation of its text runs. *)
Theorem extract_tables_of_document (d : document) :
  extract_tables (encode_document d) = Ok (tables_of d).
Proof.
  destruct d as [| |l]; [reflexivity | reflexivity|].
  unfold extract_tables.
  change (py_contains (py "body") (encode_document (DContent l))) with (Ok true).
  cbn [bind negb].
  change (py_getitem (encode_document (DContent l)) (py "body"))
    with (Ok (PDict [(py "content", PList (List.map encode_body_elem l))])).
  cbn [bind].
  change (py_contains (py "content")
            (PDict [(py "content", PList (List.map encode_body_elem l))]))
    with (Ok true).
  cbn [bind negb].
  change (py_getitem (PDict [(py "content", PList (List.map encode_body_elem l))])
            (py "content"))
    with (Ok (PList (List.map encode_body_elem l))).
  cbn [bind py_iter tables_of].
  apply flat_map_result_encode. intros [els|t|]; [reflexivity| |reflexivity].
  change (py_contains (py "table") (encode_body_elem (BTable t))) with (Ok true).
  cbn [bind].
  change (py_getitem (encode_body_elem (BTable t)) (py "table"))
    with (Ok (PDict (opt_item "tableRows" (encode_list encode_row t)))).
  cbn [bind]. now rewrite parse_table_encode.
Qed.

Lemma paragraph_runs_encode (elements : option (list run_elem)) :
  paragraph_runs (encode_paragraph elements) = Ok (List.map PStr (runs_of elements)).
Proof. rewrite <- elements_runs_encode. reflexivity. Qed.

Lemma row_runs_encode (r : option (list (option (list content_item)))) :
  (do cells_v <- py_get (encode_row r) (py "tableCells") (PList []);
   do cells <- py_iter cells_v;
   flat_map_result
     (fun cell =>
        do content_v <- py_get cell (py "content") (PList []);
        do contents <- py_iter content_v;
        flat_map_result content_runs contents)
     cells) =
  Ok (List.map PStr (flat_map cell_runs (present r))).
Proof.
  destruct r as [l|]; [|reflexivity].
  cbn [present]. rewrite <- flat_map_map_PStr.
  rewrite <- (flat_map_result_encode encode_cell
                (fun cell =>
                   do content_v <- py_get cell (py "content") (PList []);
                   do contents <- py_iter content_v;
                   flat_map_result content_runs contents)
                _ l cell_content_encode).
  reflexivity.
Qed.

Lemma table_runs_encode
    (t : option (list (option (list (option (list content_item)))))) :
  table_runs (encode_body_elem (BTable t)) =
  Ok (List.map PStr (flat_map (fun r => flat_map cell_runs (present r)) (present t))).
Proof.
  destruct t as [l|]; [|reflexivity].
  cbn [present]. rewrite <- flat_map_map_PStr.
  rewrite <- (flat_map_result_encode encode_row
                (fun row =>
                   do cells_v <- py_get row (py "tableCells") (PList []);
                   do cells <- py_iter cells_v;
                   flat_map_result
                     (fun cell =>
                        do content_v <- py_get cell (py "content") (PList []);
                        do contents <- py_iter content_v;
                        flat_map_result content_runs contents)
                     cells)
                _ l row_runs_encode).
  reflexivity.
Qed.

Lemma body_element_runs_encode (b : body_elem) :
  body_element_runs (encode_body_elem b) =
  Ok (List.map PStr
        match b with
        | BParagraph els => runs_of els
        | BTable t => flat_map (fun r => flat_map cell_runs (present r)) (present t)
        | BOther => []
        end).
Proof.
  destruct b as [els|t|]; [|rewrite <- table_runs_encode|]; try reflexivity.
  rewrite <- paragraph_runs_encode. reflexivity.
Qed.

(** X14: for such a document, text extraction returns the contents of the
    text runs, concatenated in document order with no separator: those of
    the paragraphs of the body and, for a table, those of its cells, row by
    row; what lies under an absent key contributes nothing. *)
Theorem get_document_text_of_document (d : document) :
  get_document_text (encode_document d) = Returned (text_of d).
Proof.
  unfold get_document_text.
  enough (H : document_text (encode_document d) = Ok (text_of d)) by now rewrite H.
  destruct d as [| |l]; [reflexivity | reflexivity|].
  unfold document_text.
  change (py_contains (py "body") (encode_document (DContent l))) with (Ok true).
  cbn [bind].
  change (py_getitem (encode_document (DContent l)) (py "body"))
    with (Ok (PDict [(py "content", PList (List.map encode_body_elem l))])).
  cbn [bind].
  change (py_contains (py "content")
            (PDict [(py "content", PList (List.map encode_body_elem l))]))
    with (Ok true).
  cbn [bind].
  change (py_getitem (PDict [(py "content", PList (List.map encode_body_elem l))])
            (py "content"))
    with (Ok (PList (List.map encode_body_elem l))).
  cbn [bind py_iter text_of].
  rewrite <- py_join_empty_strings, <- flat_map_map_PStr.
  rewrite (flat_map_result_encode encode_body_elem body_element_runs _ l
             body_element_runs_encode).
  reflexivity.
Qed.

(** ** Tables of any input: what a returned table looks like *)

Lemma lstrip_fixed (s : pystr) :
  match s with [] => True | c :: _ => isspace c = false end -> str_lstrip s = s.
Proof. destruct s as [|c s]; [reflexivity|]. cbn [str_lstrip]. now intros ->. Qed.

Lemma lstrip_head (s : pystr) :
  match str_lstrip s with [] => True | c :: _ => isspace c = false end.
Proof.
  induction s as [|c s IH]; [exact I|].
  cbn [str_lstrip]. destruct (isspace c) eqn:Hc; [exact IH | exact Hc].
Qed.

Lemma rstrip_keeps_head (s : pystr) :
  match s with [] => True | c :: _ => isspace c = false end ->
  match str_rstrip s with [] => True | c :: _ => isspace c = false end.
Proof.
  intros Hs. destruct (rstrip_decompose s) as (r & _ & Hr).
  destruct (str_rstrip s) as [|c t]; [exact I|].
  rewrite Hr in Hs. exact Hs.
Qed.

(** Trimming a trimmed string changes nothing. *)
Lemma strip_idempotent (s : pystr) : str_strip (str_strip s) = str_strip s.
Proof.
  unfold str_strip at 1.
  rewrite (lstrip_fixed (str_strip s))
    by (unfold str_strip; apply rstrip_keeps_head, lstrip_head).
  unfold str_strip, str_rstrip. rewrite rev_involutive.
  rewrite (lstrip_fixed (str_lstrip (rev (str_lstrip s)))) by apply lstrip_head.
  reflexivity.
Qed.

Lemma flat_map_result_Ok_inv {A B} (f : A -> result (list B)) (l : list A)
    (bs : list B) (b : B) :
  flat_map_result f l = Ok bs -> In b bs ->
  exists a bs', In a l /\ f a = Ok bs' /\ In b bs'.
Proof.
  revert bs. induction l as [|a l IH]; intros bs; cbn [flat_map_result].
  - intros [= <-] [].
  - destruct (f a) as [bs1|e] eqn:Ha; cbn [bind]; [|discriminate].
    destruct (flat_map_result f l) as [bs2|e]; cbn [bind]; [|discriminate].
    intros [= <-] Hin. apply in_app_or in Hin as [Hin | Hin].
    + exists a, bs1. split; [now left | now split].
    + destruct (IH bs2 eq_refl Hin) as (a' & bs' & Ha' & Hf & Hb).
      exists a', bs'. split; [now right | now split].
Qed.

Lemma bind_Ok_inv {A B} (m : result A) (k : A -> result B) (b : B) :
  bind m k = Ok b -> exists a, m = Ok a /\ k a = Ok b.
Proof. destruct m as [a|e]; cbn [bind]; [now exists a | discriminate]. Qed.

Lemma parse_cell_trimmed (cell : pyval) (s : pystr) :
  parse_cell cell = Ok s -> str_strip s = s.
Proof.
  unfold parse_cell. intros H.
  repeat (apply bind_Ok_inv in H as (? & _ & H)).
  injection H as <-. apply strip_idempotent.
Qed.

Lemma parse_table_shape (t : pyval) (tb : table) :
  parse_table t = Ok tb ->
  rows tb = length (data tb) /\
  columns tb = match data tb with r0 :: _ => length r0 | [] => 0%nat end /\
  Forall (Forall (fun cell => str_strip cell = cell)) (data tb).
Proof.
  unfold parse_table. intros H.
  apply bind_Ok_inv in H as (rows_v & _ & H).
  apply bind_Ok_inv in H as (row_list & _ & H).
  apply bind_Ok_inv in H as (parsed & Hparsed & H).
  injection H as <-. cbn [rows columns data].
  split; [reflexivity|]. split; [reflexivity|].
  apply map_result_Ok_inv in Hparsed.
  apply Forall_forall. intros row Hrow. apply list_elem_of_In in Hrow.
  destruct (Forall2_In_r _ _ _ row Hparsed Hrow) as (rv & _ & Hr).
  unfold parse_row in Hr.
  apply bind_Ok_inv in Hr as (cells_v & _ & Hr).
  apply bind_Ok_inv in Hr as (cells & _ & Hr).
  apply map_result_Ok_inv in Hr.
  apply Forall_forall. intros cell Hcell. apply list_elem_of_In in Hcell.
  destruct (Forall2_In_r _ _ _ cell Hr Hcell) as (cv & _ & Hc).
  now apply parse_cell_trimmed in Hc.
Qed.

(** X15: whatever the input, in every table that table extraction returns
    the row count is the number of rows of cells, the column count is the
    number of cells of the first row (0 without rows; later rows may have
    another number of cells), and every cell text is trimmed. *)
Theorem extracted_tables_shape (document_data : pyval) (tables : list table) :
  extract_tables document_data = Ok tables ->
  Forall (fun tb =>
            rows tb = length (data tb) /\
            columns tb = match data tb with r0 :: _ => length r0 | [] => 0%nat end /\
            Forall (Forall (fun cell => str_strip cell = cell)) (data tb))
         tables.
Proof.
  unfold extract_tables. intros H.
  apply bind_Ok_inv in H as (has_body & _ & H).
  destruct has_body; cbn [negb] in H;
    [|injection H as <-; constructor].
  apply bind_Ok_inv in H as (body & _ & H).
  apply bind_Ok_inv in H as (has_content & _ & H).
  destruct has_content; cbn [negb] in H;
    [|injection H as <-; constructor].
  apply bind_Ok_inv in H as (content & _ & H).
  apply bind_Ok_inv in H as (elems & _ & H).
  apply Forall_forall. intros tb Htb. apply list_elem_of_In in Htb.
  destruct (flat_map_result_Ok_inv _ _ _ tb H Htb) as (element & tbs & _ & He & Hin).
  apply bind_Ok_inv in He as (is_table & _ & He).
  destruct is_table; [|injection He as <-; destruct Hin].
  apply bind_Ok_inv in He as (t & _ & He).
  apply bind_Ok_inv in He as (table_data & Hparse & He).
  injection He as <-. destruct Hin as [<- | []].
  exact (parse_table_shape _ _ Hparse).
Qed.

Lemma extracted_tables_shape_witness :
  Forall (fun tb =>
            rows tb = length (data tb) /\
            columns tb = match data tb with r0 :: _ => length r0 | [] => 0%nat end /\
            Forall (Forall (fun cell => str_strip cell = cell)) (data tb))
         [ {| rows := 2; columns := 1; data := [ [py "a b"]; [py "c"; []] ] |} ].
Proof.
  apply (extracted_tables_shape
           (document_of [ [cell_of [text_run " a "; text_run "b  "]];
                          [cell_of [text_run "c"]; cell_of []] ])).
  vm_compute. reflexivity.
Defined.

(** ** Search: every occurrence, overlapping ones included *)

Lemma find_aux_none (sub s : pystr) (i : nat) :
  find_aux sub s i = None -> occurrences_from sub s i = [].
Proof.
  revert i. induction s as [|c s IH]; intros i; cbn [find_aux occurrences_from].
  - destruct (startswith sub []); [discriminate | reflexivity].
  - destruct (startswith sub (c :: s)); [discriminate|]. apply IH.
Qed.

Lemma find_aux_some (sub s : pystr) (i j : nat) :
  find_aux sub s i = Some j ->
  exists k, j = (i + k)%nat /\ (k <= length s)%nat /\
    occurrences_from sub s i =
      j :: match drop k s with
           | [] => []
           | _ :: s' => occurrences_from sub s' (S j)
           end.
Proof.
  revert i. induction s as [|c s IH]; intros i; cbn [find_aux occurrences_from].
  - destruct (startswith sub []); [|discriminate].
    intros [= <-]. exists 0%nat. rewrite Nat.add_0_r. repeat split; cbn; lia.
  - destruct (startswith sub (c :: s)) eqn:Hs.
    + intros [= <-]. exists 0%nat. rewrite Nat.add_0_r. cbn [drop app length].
      repeat split; lia.
    + intros Hj. destruct (IH (S i) Hj) as (k & -> & Hk & Hocc).
      exists (S k). cbn [drop app length]. rewrite Hocc.
      replace (i + S k)%nat with (S i + k)%nat by lia. repeat split; lia.
Qed.

Lemma drop_drop_tail {A} (l : list A) (n : nat) (x : A) (l' : list A) :
  drop n l = x :: l' -> drop (S n) l = l' /\ (n < length l)%nat.
Proof.
  revert n. induction l as [|y l IH]; intros [|n]; cbn [drop length]; try discriminate.
  - intros [= -> ->]. split; [reflexivity | lia].
  - intros H. destruct (IH n H) as [H1 H2]. split; [exact H1 | lia].
Qed.

Lemma search_loop_spec (text_content search_query text_lower search_lower : pystr)
    (fuel start : nat) (matches : list search_match) :
  (start <= length text_lower)%nat ->
  (length text_lower - start + 2 <= fuel)%nat ->
  search_loop fuel text_content search_query text_lower search_lower start matches =
  Some (matches ++
        List.map (search_entry text_content search_query)
                 (occurrences_from search_lower (drop start text_lower) start)).
Proof.
  revert start matches. induction fuel as [|fuel IH]; intros start matches Hstart Hfuel;
    [lia|].
  cbn [search_loop]. unfold str_find_from.
  destruct (Nat.leb_spec start (length text_lower)) as [_ | Hgt]; [|lia].
  destruct (find_aux search_lower (drop start text_lower) start) as [j|] eqn:Hfind.
  - apply find_aux_some in Hfind as (k & -> & Hk & Hocc).
    rewrite Hocc, drop_drop. rewrite length_drop in Hk.
    destruct (drop (start + k) text_lower) as [|c s'] eqn:Hdrop.
    + destruct fuel as [|fuel]; [lia|]. cbn [search_loop]. unfold str_find_from.
      assert (Hlen : (length text_lower <= start + k)%nat).
      { apply (f_equal length) in Hdrop. rewrite length_drop in Hdrop. cbn in Hdrop. lia. }
      destruct (Nat.leb_spec (start + k + 1) (length text_lower)); [lia|].
      reflexivity.
    + apply drop_drop_tail in Hdrop as [Hs' Hlt].
      rewrite (IH (start + k + 1)%nat) by lia.
      rewrite Nat.add_1_r, Hs', <- app_assoc. reflexivity.
  - now rewrite (find_aux_none _ _ _ Hfind), app_nil_r.
Qed.

Lemma occurrences_from_spec (sub s : pystr) (i j : nat) :
  In j (occurrences_from sub s i) <->
  exists k, j = (i + k)%nat /\ (k <= length s)%nat /\ startswith sub (drop k s) = true.
Proof.
  revert i. induction s as [|c s IH]; intros i; cbn [occurrences_from].
  - rewrite app_nil_r. destruct (startswith sub []) eqn:Hs.
    + split.
      * intros [<- | []]. exists 0%nat. rewrite Nat.add_0_r. now repeat split.
      * intros (k & -> & Hk & _). cbn in Hk. left. lia.
    + split; [intros [] |]. intros (k & _ & Hk & Hsw).
      cbn in Hk. replace k with 0%nat in Hsw by lia. cbn [drop] in Hsw. congruence.
  - rewrite in_app_iff, IH. split.
    + intros [Hhead | (k & -> & Hk & Hsw)].
      * destruct (startswith sub (c :: s)) eqn:Hs; [|destruct Hhead].
        destruct Hhead as [<- | []]. exists 0%nat. rewrite Nat.add_0_r.
        repeat split; [lia | exact Hs].
      * exists (S k). cbn [drop length]. repeat split; [lia | lia | exact Hsw].
    + intros ([|k] & -> & Hk & Hsw).
      * left. cbn [drop] in Hsw. rewrite Hsw. left. lia.
      * right. exists k. cbn [drop length] in *. repeat split; [lia | lia | exact Hsw].
Qed.

Lemma occurrences_from_sorted (sub s : pystr) (i : nat) :
  StronglySorted lt (occurrences_from sub s i) /\
  Forall (fun j => (i <= j)%nat) (occurrences_from sub s i).
Proof.
  revert i. induction s as [|c s IH]; intros i; cbn [occurrences_from].
  - rewrite app_nil_r. destruct (startswith sub []); split; repeat constructor.
  - destruct (IH (S i)) as [Hs Hall].
    assert (Hall' : Forall (fun j => (i < j)%nat) (occurrences_from sub s (S i)))
      by (eapply Forall_impl; [exact Hall | intros j Hj; exact Hj]).
    destruct (startswith sub (c :: s)); cbn [app].
    + split; constructor; try assumption; [lia|].
      eapply Forall_impl; [exact Hall | cbn; intros; lia].
    + split; [exact Hs|]. eapply Forall_impl; [exact Hall | cbn; intros; lia].
Qed.

Lemma occurrences_from_empty (s : pystr) (i : nat) :
  occurrences_from [] s i = seq i (S (length s)).
Proof.
  revert i. induction s as [|c s IH]; intros i; [reflexivity|].
  cbn [occurrences_from startswith app length].
  rewrite IH. reflexivity.
Qed.

Section Search.
Context {U : UnicodeDb}.

(** X16: the search loop ends, within a number of iterations that is linear
    in the text, and returns one match for every index at which the
    lowercased query starts in the lowercased text, in increasing order;
    occurrences that overlap are all reported. *)
Theorem search_finds_every_occurrence (fuel : nat) (text_content search_query : pystr) :
  (length (str_lower text_content) + 2 <= fuel)%nat ->
  exists matches,
    search_in_document fuel text_content search_query = Some matches /\
    StronglySorted lt (List.map m_position matches) /\
    (forall i,
        In i (List.map m_position matches) <->
        (i <= length (str_lower text_content))%nat /\
        startswith (str_lower search_query) (drop i (str_lower text_content)) = true) /\
    Forall (fun m =>
              m_text m = take (length search_query) (drop (m_position m) text_content))
           matches.
Proof.
  intros Hfuel. unfold search_in_document.
  rewrite search_loop_spec by lia. rewrite drop_0. cbn [app].
  set (positions := occurrences_from (str_lower search_query) (str_lower text_content) 0).
  eexists. split; [reflexivity|].
  assert (Hpos : List.map m_position
                   (List.map (search_entry text_content search_query) positions) =
                 positions).
  { rewrite List.map_map. cbn [search_entry m_position]. apply List.map_id. }
  rewrite Hpos. split; [apply occurrences_from_sorted|]. split.
  - intros i. unfold positions. rewrite occurrences_from_spec. split.
    + intros (k & -> & Hk & Hs). now split.
    + intros [Hi Hs]. now exists i.
  - apply Forall_forall. intros m Hm.
    apply list_elem_of_In, in_map_iff in Hm as (i & <- & _).
    cbn [search_entry m_text m_position]. unfold str_slice. f_equal. lia.
Qed.

(** X17: a query that is empty once lowercased is found at every index,
    the end of the text included: the search returns one match more than
    the lowercased text has characters. *)
Theorem search_with_empty_query (fuel : nat) (text_content search_query : pystr) :
  str_lower search_query = [] ->
  (length (str_lower text_content) + 2 <= fuel)%nat ->
  exists matches,
    search_in_document fuel text_content search_query = Some matches /\
    List.map m_position matches = seq 0 (S (length (str_lower text_content))).
Proof.
  intros Hq Hfuel. unfold search_in_document.
  rewrite search_loop_spec by lia. rewrite drop_0. cbn [app]. rewrite Hq.
  eexists. split; [reflexivity|].
  rewrite List.map_map. cbn [search_entry m_position]. rewrite List.map_id.
  apply occurrences_from_empty.
Qed.

End Search.

Lemma search_finds_every_occurrence_witness :
  exists matches,
    @search_in_document ascii_db 5 (py "aAa") (py "AA") = Some matches /\
    StronglySorted lt (List.map m_position matches) /\
    (forall i,
        In i (List.map m_position matches) <->
        (i <= length (@str_lower ascii_db (py "aAa")))%nat /\
        startswith (@str_lower ascii_db (py "AA"))
                   (drop i (@str_lower ascii_db (py "aAa"))) = true) /\
    Forall (fun m => m_text m = take (length (py "AA")) (drop (m_position m) (py "aAa")))
           matches.
Proof.
  apply (@search_finds_every_occurrence ascii_db 5 (py "aAa") (py "AA")).
  vm_compute. lia.
Defined.

Lemma search_with_empty_query_witness :
  exists matches,
    @search_in_document ascii_db 4 (py "ab") [] = Some matches /\
    List.map m_position matches = seq 0 (S (length (@str_lower ascii_db (py "ab")))).
Proof.
  apply (@search_with_empty_query ascii_db 4 (py "ab") []); [reflexivity|].
  vm_compute. lia.
Defined.

Example search_overlapping :
  @search_in_document ascii_db 5 (py "aAa") (py "AA") =
  Some [ {| m_position := 0; m_text := py "aA"; m_context := py "aAa" |};
         {| m_position := 1; m_text := py "Aa"; m_context := py "aAa" |} ].
Proof. vm_compute. reflexivity. Qed.

(** ** Colours *)

Lemma hex_digit_value_bounds (c : char) :
  is_hex_digit c = true -> (0 <= hex_digit_value c <= 15)%Z.
Proof.
  unfold is_hex_digit, hex_digit_value, ascii_is_digit.
  destruct (N.leb_spec 48 c), (N.leb_spec c 57), (N.leb_spec 97 c),
    (N.leb_spec c 102), (N.leb_spec 65 c), (N.leb_spec c 70);
    cbn [andb orb]; intros Hhex; try discriminate Hhex; lia.
Qed.

Lemma hex_digit_not_hash (c : char) : is_hex_digit c = true -> (c =? 35) = false.
Proof.
  intros H. destruct (N.eqb_spec c 35) as [-> | _]; [discriminate H | reflexivity].
Qed.

Lemma lstrip_hashes (n : nat) (c : char) (s : pystr) :
  (c =? 35) = false ->
  str_lstrip_char 35 (repeat 35 n ++ c :: s) = c :: s.
Proof.
  intros Hc. induction n as [|n IH]; cbn [repeat app str_lstrip_char].
  - now rewrite Hc.
  - exact IH.
Qed.

Section Colours.
Context {P : IntParser}.

Lemma py_int16_pair (a b : char) :
  is_hex_digit a = true -> is_hex_digit b = true ->
  py_int16 [a; b] = Ok (16 * hex_digit_value a + hex_digit_value b)%Z.
Proof.
  intros Ha Hb. unfold py_int16. cbn [forallb fold_left]. rewrite Ha, Hb.
  cbn [andb]. apply f_equal. lia.
Qed.

Lemma py_int16_outcomes (s : pystr) :
  (exists z, py_int16 s = Ok z) \/ py_int16 s = Raise ValueError.
Proof.
  unfold py_int16. destruct s as [|c s]; [now right|].
  destruct (forallb is_hex_digit (c :: s)); [left; now eexists|].
  destruct (int16_other (c :: s)); [left; now eexists | now right].
Qed.

Lemma channel_bounds (a b : char) :
  is_hex_digit a = true -> is_hex_digit b = true ->
  (0 <= inject_Z (16 * hex_digit_value a + hex_digit_value b) / 255)%Q /\
  (inject_Z (16 * hex_digit_value a + hex_digit_value b) / 255 <= 1)%Q.
Proof.
  intros Ha Hb.
  pose proof (hex_digit_value_bounds a Ha). pose proof (hex_digit_value_bounds b Hb).
  assert (H255 : (0 < 255)%Q) by reflexivity.
  split.
  - apply Qle_shift_div_l; [exact H255|]. rewrite Qmult_0_l.
    change 0%Q with (inject_Z 0). rewrite <- Zle_Qle. lia.
  - apply Qle_shift_div_r; [exact H255|]. rewrite Qmult_1_l.
    change 255%Q with (inject_Z 255). rewrite <- Zle_Qle. lia.
Qed.

(** X18: for a colour written as any number of [#] followed by six
    hexadecimal digits, the parser returns the three channels, each the
    value of its two digits divided by 255 and so between 0 and 1;
    whatever follows the sixth digit is ignored. *)
Theorem parse_color_of_hex_digits (n : nat) (r1 r2 g1 g2 b1 b2 : char) (extra : pystr) :
  forallb is_hex_digit [r1; r2; g1; g2; b1; b2] = true ->
  exists c,
    parse_color (repeat 35 n ++ [r1; r2; g1; g2; b1; b2] ++ extra) = Ok c /\
    red c = (inject_Z (16 * hex_digit_value r1 + hex_digit_value r2) / 255)%Q /\
    green c = (inject_Z (16 * hex_digit_value g1 + hex_digit_value g2) / 255)%Q /\
    blue c = (inject_Z (16 * hex_digit_value b1 + hex_digit_value b2) / 255)%Q /\
    (0 <= red c)%Q /\ (red c <= 1)%Q /\
    (0 <= green c)%Q /\ (green c <= 1)%Q /\
    (0 <= blue c)%Q /\ (blue c <= 1)%Q.
Proof.
  cbn [forallb]. rewrite !andb_true_iff.
  intros (Hr1 & Hr2 & Hg1 & Hg2 & Hb1 & Hb2 & _).
  eexists. split.
  - unfold parse_color. cbn [app].
    rewrite (lstrip_hashes n r1 _ (hex_digit_not_hash r1 Hr1)).
    change (str_slice (r1 :: r2 :: g1 :: g2 :: b1 :: b2 :: extra) 0 2) with [r1; r2].
    change (str_slice (r1 :: r2 :: g1 :: g2 :: b1 :: b2 :: extra) 2 4) with [g1; g2].
    change (str_slice (r1 :: r2 :: g1 :: g2 :: b1 :: b2 :: extra) 4 6) with [b1; b2].
    rewrite !py_int16_pair by assumption. reflexivity.
  - cbn [red green blue].
    destruct (channel_bounds r1 r2 Hr1 Hr2), (channel_bounds g1 g2 Hg1 Hg2),
      (channel_bounds b1 b2 Hb1 Hb2).
    repeat split; assumption.
Qed.

(** X19: a colour with fewer than five characters after its leading [#],
    such as the short form [#FFF], is rejected with [ValueError]: the blue
    channel is read from an empty string. *)
Theorem parse_color_too_short (color_hex : pystr) :
  (length (str_lstrip_char 35 color_hex) <= 4)%nat ->
  parse_color color_hex = Raise ValueError.
Proof.
  intros Hlen. unfold parse_color.
  set (c := str_lstrip_char 35 color_hex) in *.
  assert (Hb : str_slice c 4 6 = []).
  { unfold str_slice. rewrite (drop_ge c 4) by lia. reflexivity. }
  rewrite Hb.
  destruct (py_int16_outcomes (str_slice c 0 2)) as [[r ->] | ->]; cbn [bind];
    [|reflexivity].
  destruct (py_int16_outcomes (str_slice c 2 4)) as [[g ->] | ->]; cbn [bind];
    reflexivity.
Qed.

End Colours.

Lemma parse_color_of_hex_digits_witness :
  exists c,
    @parse_color strict_int_parser (py "#FF8000") = Ok c /\
    red c = (inject_Z (16 * hex_digit_value 70 + hex_digit_value 70) / 255)%Q /\
    green c = (inject_Z (16 * hex_digit_value 56 + hex_digit_value 48) / 255)%Q /\
    blue c = (inject_Z (16 * hex_digit_value 48 + hex_digit_value 48) / 255)%Q /\
    (0 <= red c)%Q /\ (red c <= 1)%Q /\
    (0 <= green c)%Q /\ (green c <= 1)%Q /\
    (0 <= blue c)%Q /\ (blue c <= 1)%Q.
Proof.
  apply (@parse_color_of_hex_digits strict_int_parser 1 70 70 56 48 48 48 []).
  reflexivity.
Defined.

Lemma parse_color_too_short_witness :
  @parse_color strict_int_parser (py "#FFF") = Raise ValueError.
Proof. apply (@parse_color_too_short strict_int_parser (py "#FFF")). vm_compute. lia. Defined.

(** ** Structure: the order and range of what is reported *)

Lemma flat_map_enumerate_sorted {A B} (f : nat * A -> list B) (pos : B -> nat)
    (l : list A) (k : nat) :
  (forall p b, In b (f p) -> pos b = fst p) ->
  (forall p, length (f p) <= 1)%nat ->
  StronglySorted (fun a b => (pos a < pos b)%nat)
                 (flat_map f (combine (seq k (length l)) l)) /\
  Forall (fun b => (k <= pos b < k + length l)%nat)
         (flat_map f (combine (seq k (length l)) l)).
Proof.
  intros Hpos Hone. revert k. induction l as [|x l IH]; intros k.
  - cbn. split; constructor.
  - cbn [length seq combine flat_map]. destruct (IH (S k)) as [Hs Hr].
    assert (Hr' : Forall (fun b => (k < pos b)%nat /\ (k <= pos b < k + S (length l))%nat)
                         (flat_map f (combine (seq (S k) (length l)) l)))
      by (eapply Forall_impl; [exact Hr | cbn; intros; lia]).
    pose proof (Hone (k, x)) as H1. pose proof (Hpos (k, x)) as Hp.
    destruct (f (k, x)) as [|b [|b' rest]]; cbn [length app] in *; [| |lia].
    + split; [exact Hs|]. eapply Forall_impl; [exact Hr' | cbn; intros; lia].
    + assert (Hb : pos b = k) by (apply Hp; now left). split.
      * constructor; [exact Hs|].
        eapply Forall_impl; [exact Hr' | cbn; intros; lia].
      * constructor; [lia|]. eapply Forall_impl; [exact Hr' | cbn; intros; lia].
Qed.

Section StructureOrder.
Context {U : UnicodeDb}.

(** X20: headings and list items are reported in line order, at most one
    heading and one list item per line. A heading is never the last line
    and has level 1, 2 or 3; the position of a list item is a line index.
    The report says the text has structure exactly when a heading or a list
    item was found. *)
Theorem structure_in_line_order (text : pystr) :
  let report := analyze_structure text in
  let line_count := length (str_split_sep [LF] text) in
  StronglySorted (fun a b => (h_position a < h_position b)%nat) (headings report) /\
  StronglySorted (fun a b => (li_position a < li_position b)%nat) (listItems report) /\
  Forall (fun h => (S (h_position h) < line_count)%nat /\ (1 <= h_level h <= 3)%nat)
         (headings report) /\
  Forall (fun i => (li_position i < line_count)%nat) (listItems report) /\
  (hasStructure report = true <-> headings report <> [] \/ listItems report <> []).
Proof.
  cbv zeta. unfold analyze_structure. cbn [headings listItems hasStructure].
  set (lines := str_split_sep [LF] text).
  assert (Hh : forall (p : nat * pystr) h,
             In h ((fun p : nat * pystr =>
                      let i := fst p in
                      let line_stripped := str_strip (snd p) in
                      let w := length (str_split line_stripped) in
                      if (3 <? w)%nat && (w <=? 10)%nat then
                        match lines !! (i + 1)%nat with
                        | Some next =>
                            if (10 <? length (str_split (str_strip next)))%nat
                            then [ {| h_text := line_stripped; h_position := i;
                                      h_level := guess_heading_level line_stripped |} ]
                            else []
                        | None => []
                        end
                      else []) p) ->
             h_position h = fst p /\ (S (fst p) < length lines)%nat /\
             (1 <= h_level h <= 3)%nat).
  { intros [i line] h. cbn [fst snd].
    destruct (_ && _); [|intros Hf; destruct Hf].
    destruct (lines !! (i + 1)%nat) as [next|] eqn:Hnext; [|intros Hf; destruct Hf].
    destruct (_ <? _)%nat; [|intros Hf; destruct Hf].
    intros [<- | []]. cbn [h_position h_level].
    apply lookup_lt_Some in Hnext. split; [reflexivity|]. split; [lia|].
    unfold guess_heading_level.
    destruct (str_isupper _); [lia|]. destruct (_ <=? _)%nat; lia. }
  unfold potential_headings, detect_list_items, enumerate.
  split; [|split; [|split; [|split]]].
  - apply (flat_map_enumerate_sorted _ h_position lines 0).
    + intros p h Hin. now apply Hh in Hin.
    + intros [i line]. cbn [fst snd].
      repeat (match goal with
              | |- context [if ?b then _ else _] => destruct b
              | |- context [match ?o with Some _ => _ | None => _ end] => destruct o
              end; cbn [length]; try lia).
  - apply (flat_map_enumerate_sorted _ li_position lines 0).
    + intros [i line] item. cbn [fst snd].
      repeat (match goal with
              | |- context [if ?b then _ else _] => destruct b
              end); intros Hin; cbn [In] in Hin;
        first [ contradiction | destruct Hin as [<- | Hf]; [reflexivity | destruct Hf] ].
    + intros [i line]. cbn [fst snd].
      repeat (match goal with
              | |- context [if ?b then _ else _] => destruct b
              end; cbn [length]; try lia).
  - apply Forall_forall. intros h Hin.
    apply list_elem_of_In, in_flat_map in Hin as ([i line] & Hp & Hin).
    apply Hh in Hin as (Hpos & Hlt & Hlv). rewrite Hpos. now split.
  - apply Forall_forall. intros item Hin.
    apply list_elem_of_In, in_flat_map in Hin as ([i line] & Hp & Hin).
    apply (combine_seq_In lines 0 i line) in Hp as [_ Hp].
    rewrite Nat.sub_0_r in Hp. apply lookup_lt_Some in Hp.
    cbn [fst snd] in Hin.
    repeat (match type of Hin with
            | In _ (if ?b then _ else _) => destruct b
            end); cbn [In] in Hin;
      first [ contradiction | destruct Hin as [<- | Hf]; [exact Hp | destruct Hf] ].
  - rewrite orb_true_iff, !Nat.ltb_lt.
    split; (intros [H | H]; [left | right]);
      match goal with
      | |- _ <> [] => intros Hnil; rewrite Hnil in H; cbn in H; lia
      | |- (0 < length ?l)%nat => destruct l; [contradiction | cbn; lia]
      end.
Qed.

End StructureOrder.

(** ** Keywords: ties keep the order of first appearance *)

Lemma insert_desc_stable {A} (key : A -> nat) (v : nat) (x : A) (l : list A) :
  List.filter (fun a => (key a =? v)%nat)
              (insert_desc (fun a b => (key a <? key b)%nat) x l) =
  List.filter (fun a => (key a =? v)%nat) (x :: l).
Proof.
  induction l as [|y l IH]; [reflexivity|].
  cbn [insert_desc]. destruct (Nat.ltb_spec (key x) (key y)) as [Hlt | _];
    [|reflexivity].
  cbn [List.filter] in *. rewrite IH.
  destruct (Nat.eqb_spec (key x) v), (Nat.eqb_spec (key y) v); try reflexivity. lia.
Qed.

(** Sorting keeps the entries of one key value in their order. *)
Lemma sort_desc_stable {A} (key : A -> nat) (v : nat) (l : list A) :
  List.filter (fun a => (key a =? v)%nat)
              (sort_desc (fun a b => (key a <? key b)%nat) l) =
  List.filter (fun a => (key a =? v)%nat) l.
Proof.
  induction l as [|x l IH]; [reflexivity|].
  cbn [sort_desc fold_right]. rewrite insert_desc_stable.
  cbn [List.filter]. fold (sort_desc (fun a b => (key a <? key b)%nat) l).
  now rewrite IH.
Qed.

Lemma filter_take_prefix {A} (p : A -> bool) (n : nat) (l : list A) :
  List.filter p (take n l) `prefix_of` List.filter p l.
Proof.
  revert n. induction l as [|x l IH]; intros [|n]; cbn [take List.filter];
    try apply prefix_nil.
  destruct (p x); [apply prefix_cons, IH | apply IH].
Qed.

Lemma filter_ext_In {A} (p q : A -> bool) (l : list A) :
  (forall x, In x l -> p x = q x) -> List.filter p l = List.filter q l.
Proof.
  induction l as [|x l IH]; intros H; [reflexivity|].
  cbn [List.filter]. rewrite (H x (or_introl eq_refl)).
  rewrite IH by (intros; apply H; now right). reflexivity.
Qed.

Lemma fold_counter_keys (l : list pystr) (c : list (pystr * nat)) :
  (fold_left (fun c w => counter_add w c) l c).*1 =
  c.*1 ++ List.filter (fun w => negb (bool_decide (w ∈ c.*1))) (first_seen l).
Proof.
  revert c. induction l as [|w l IH]; intros c; cbn [fold_left first_seen List.filter].
  - now rewrite app_nil_r.
  - rewrite IH. rewrite filter_twice.
    destruct (counter_add_keys w c) as [[Hin ->] | [Hnin ->]].
    + apply list_elem_of_In in Hin.
      rewrite (bool_decide_true _ Hin). cbn [negb]. f_equal.
      apply filter_ext_In. intros x _.
      destruct (bool_decide_reflect (x = w)) as [-> | Hne]; cbn [negb].
      * now rewrite (bool_decide_true _ Hin).
      * now rewrite andb_true_r.
    + rewrite <- list_elem_of_In in Hnin.
      rewrite (bool_decide_false _ Hnin). cbn [negb].
      rewrite <- app_assoc. cbn [app]. do 2 f_equal.
      apply filter_ext_In. intros x _.
      destruct (bool_decide_reflect (x = w)) as [-> | Hne]; cbn [negb].
      * rewrite andb_false_r. apply negb_false_iff, bool_decide_eq_true.
        apply elem_of_app. right. apply list_elem_of_singleton. reflexivity.
      * rewrite andb_true_r. f_equal. apply bool_decide_ext.
        rewrite elem_of_app, list_elem_of_singleton.
        split; [intros [H1 | H1]; [exact H1 | congruence] | intros H1; now left].
Qed.

(** The keys of a counter are the distinct tokens in the order of their
    first appearance, each with the number of its occurrences. *)
Lemma Counter_first_seen (l : list pystr) :
  Counter l = List.map (fun w => (w, occurrences w l)) (first_seen l).
Proof.
  assert (Hkeys : (Counter l).*1 = first_seen l).
  { unfold Counter. rewrite fold_counter_keys. cbn [fmap list_fmap app].
    rewrite <- (List.filter_true (first_seen l)) at 2.
    apply filter_ext_In. intros x _.
    now rewrite bool_decide_false by apply not_elem_of_nil. }
  rewrite <- Hkeys. change ((Counter l).*1) with (List.map fst (Counter l)).
  rewrite List.map_map. rewrite <- (List.map_id (Counter l)) at 1.
  apply List.map_ext_in. intros [k n] Hin. cbn [fst].
  apply Counter_entry in Hin as [-> _]. reflexivity.
Qed.

Section KeywordTies.
Context {U : UnicodeDb}.

(** X21: among the keywords of one frequency, the order is the order in
    which the tokens first appear in the text, and the ones left out by
    [top_n] are those that appear last. *)
Theorem keyword_ties_by_first_appearance (text : pystr) (top_n v : nat) :
  exists kws,
    extract_keywords text top_n = Ok kws /\
    List.map keyword (List.filter (fun k => (frequency k =? v)%nat) kws)
      `prefix_of`
    List.filter (fun w => (occurrences w (retained_tokens text) =? v)%nat)
                (first_seen (retained_tokens text)).
Proof.
  eexists. split; [apply extract_keywords_value|].
  set (tokens := retained_tokens text). unfold most_common.
  set (sorted := sort_desc (fun x y : pystr * nat => (snd x <? snd y)%nat)
                           (Counter tokens)).
  assert (Hmap : forall c : list (pystr * nat),
             List.map keyword
               (List.filter (fun k => (frequency k =? v)%nat)
                  (List.map (entry_of (length tokens)) c)) =
             List.map fst (List.filter (fun wc => (snd wc =? v)%nat) c)).
  { intros c. induction c as [|wc c IH]; [reflexivity|].
    cbn [List.map List.filter entry_of frequency].
    destruct (snd wc =? v)%nat; cbn [List.map keyword]; now rewrite IH. }
  rewrite Hmap.
  assert (Hall : List.map fst (List.filter (fun wc => (snd wc =? v)%nat) sorted) =
                 List.filter (fun w => (occurrences w tokens =? v)%nat) (first_seen tokens)).
  { unfold sorted. rewrite (sort_desc_stable snd v), Counter_first_seen.
    induction (first_seen tokens) as [|w ws IH]; [reflexivity|].
    cbn [List.map List.filter snd].
    destruct (occurrences w tokens =? v)%nat; cbn [List.map fst]; now rewrite IH. }
  rewrite <- Hall.
  destruct (filter_take_prefix (fun wc : pystr * nat => (snd wc =? v)%nat) top_n sorted)
    as [rest Hrest].
  exists (List.map fst rest). rewrite Hrest. apply List.map_app.
Qed.

End KeywordTies.
